(** * WeatherBus LoRaWAN ingestor: payload formatter and ingestion service

    A shallow embedding of [payload-formatter.js] (the TTN payload decoder)
    and of the message handler of [main.go] (envelope parsing and
    persistence), with the properties of the wire format and of the
    ingestion policy proved over them. *)

From Stdlib Require Import ZArith Lia Bool List String Ascii.
From Stdlib Require Import Strings.Byte DecimalString Floats.
From stdpp Require Import base tactics option list gmap strings.

Set Default Proof Using "Type".

(* ===================================================================== *)
(** * Part I: payload-formatter.js                                        *)
(* ===================================================================== *)

Module Formatter.

(** ** Abnormal completions

    Nothing in [decodeUplink] is written to throw, but two of the
    operations it uses can misbehave on a bad index: an array read past the
    end yields [undefined], and a [DataView] getter past the end of its
    buffer throws a [RangeError].  The model makes both visible, together
    with exhaustion of the fuel that bounds the [while] loop. *)

Inductive fault : Type :=
  | UndefinedRead
  | RangeError
  | OutOfFuel.

Inductive completion (A : Type) : Type :=
  | Normal (a : A)
  | Abrupt (f : fault).
Arguments Normal {A} a.
Arguments Abrupt {A} f.

Definition bind {A B} (c : completion A) (k : A -> completion B) : completion B :=
  match c with
  | Normal a => k a
  | Abrupt f => Abrupt f
  end.

Notation "'let*' x ':=' c 'in' k" := (bind c (fun x => k))
  (at level 10, x name, c at level 100, k at level 200).

(** ** Numbers

    Integral quantities (ids, type codes, header fields) are kept in [Z];
    a sensor value is a JavaScript Number, that is a binary64 float. *)

Definition byte_val (b : byte) : Z := Z.of_N (Byte.to_N b).

(** The Number with integral value [z] (exact for [|z| < 2^53]). *)
Definition number_of_Z (z : Z) : float :=
  match z with
  | Z0 => PrimFloat.zero
  | Zpos _ => PrimFloat.of_uint63 (Uint63.of_Z z)
  | Zneg _ => PrimFloat.opp (PrimFloat.of_uint63 (Uint63.of_Z (- z)))
  end.

(** The value of an IEEE 754 interchange pattern with [ew] exponent bits
    and [mw] fraction bits, as a specification-level float. *)
Definition ieee_of_bits (ew mw : Z) (bits : Z) : spec_float :=
  let frac := Z.land bits (Z.ones mw) in
  let expo := Z.land (Z.shiftr bits mw) (Z.ones ew) in
  let sign := Z.testbit bits (ew + mw) in
  let bias := (Z.shiftl 1 (ew - 1) - 1)%Z in
  if (expo =? Z.ones ew)%Z then
    if (frac =? 0)%Z then S754_infinity sign else S754_nan
  else if (expo =? 0)%Z then
    match frac with
    | Zpos m => S754_finite sign m (1 - bias - mw)
    | _ => S754_zero sign
    end
  else
    match Z.lor frac (Z.shiftl 1 mw) with
    | Zpos m => S754_finite sign m (expo - bias - mw)
    | _ => S754_nan
    end.

Definition float32_of_bits (bits : Z) : float := SF2Prim (ieee_of_bits 8 23 bits).
Definition float64_of_bits (bits : Z) : float := SF2Prim (ieee_of_bits 11 52 bits).

(** Two's-complement reading of a [w]-bit pattern. *)
Definition signed (w : Z) (u : Z) : Z :=
  if Z.testbit u (w - 1) then (u - Z.shiftl 1 w)%Z else u.

(** ** DataView

    [new DataView(new Uint8Array(raw).buffer)] and its getters.  A getter
    takes the byte offset and the [littleEndian] flag (absent means
    big-endian); it throws [RangeError] when the read leaves the buffer. *)

Definition DataView := list byte.

(** Little-endian value of a byte string: first byte least significant. *)
Fixpoint le_value (raw : list byte) : Z :=
  match raw with
  | [] => 0
  | b :: rest => (byte_val b + 256 * le_value rest)%Z
  end.

Definition getRaw (dv : DataView) (off n : nat) (littleEndian : bool)
  : completion Z :=
  if (off + n <=? length dv)%nat then
    let raw := take n (drop off dv) in
    Normal (le_value (if littleEndian then raw else rev raw))
  else Abrupt RangeError.

Definition getUint8 (dv : DataView) (off : nat) : completion float :=
  let* u := getRaw dv off 1 true in Normal (number_of_Z u).

Definition getUint16 (dv : DataView) (off : nat) (littleEndian : bool)
  : completion float :=
  let* u := getRaw dv off 2 littleEndian in Normal (number_of_Z u).

Definition getInt16 (dv : DataView) (off : nat) (littleEndian : bool)
  : completion float :=
  let* u := getRaw dv off 2 littleEndian in Normal (number_of_Z (signed 16 u)).

Definition getFloat32 (dv : DataView) (off : nat) (littleEndian : bool)
  : completion float :=
  let* u := getRaw dv off 4 littleEndian in Normal (float32_of_bits u).

Definition getFloat64 (dv : DataView) (off : nat) (littleEndian : bool)
  : completion float :=
  let* u := getRaw dv off 8 littleEndian in Normal (float64_of_bits u).

(** ** decodeUplink *)

(** [FORMAT_LEN]: the object literal of payload-formatter.js, lines 3-11;
    a missing key reads as [undefined], here [None]. *)
Definition FORMAT_LEN (fmt : Z) : option nat :=
  match fmt with
  | 0 => Some 1%nat (* SENSORBUS_FMT_UINT8 *)
  | 1 => Some 2%nat (* SENSORBUS_FMT_UINT16 *)
  | 2 => Some 4%nat (* SENSORBUS_FMT_FLOAT32 *)
  | 3 => Some 8%nat (* SENSORBUS_FMT_FLOAT64 *)
  | 4 => Some 2%nat
  | 5 => Some 2%nat
  | _ => None
  end%Z.

(** What [value] can hold: a Number, or the raw slice of the [default]
    branch of the [switch]. *)
Inductive jsvalue : Type :=
  | Num (x : float)
  | Raw (raw : list byte).

Record sensor : Type := Sensor
  { type : Z; index : Z; format : Z; value : jsvalue }.

Record slave : Type := Slave
  { id : Z; sensors : list sensor }.

(** The returned object [{ data: { slaves }, warnings, errors }]. *)
Record output : Type := Output
  { slaves : list slave; warnings : list string; errors : list string }.

Definition push_slave (o : output) (s : slave) : output :=
  {| slaves := slaves o ++ [s]; warnings := warnings o; errors := errors o |}.
Definition push_warning (o : output) (w : string) : output :=
  {| slaves := slaves o; warnings := warnings o ++ [w]; errors := errors o |}.
Definition push_error (o : output) (e : string) : output :=
  {| slaves := slaves o; warnings := warnings o; errors := errors o ++ [e] |}.

(** [bytes[pos]] *)
Definition read (bytes : list byte) (pos : nat) : completion Z :=
  match bytes !! pos with
  | Some b => Normal (byte_val b)
  | None => Abrupt UndefinedRead
  end.

(** [bytes.slice(from, to)] *)
Definition slice (bytes : list byte) (from to : nat) : list byte :=
  take (to - from) (drop from bytes).

(** The template literal [`Unknown format ${fmt}`]. *)
Definition unknown_format (fmt : Z) : string :=
  String.append "Unknown format " (NilEmpty.string_of_int (Z.to_int fmt)).

(** Lines 46-69: the [switch] on the format code. *)
Definition decodeValue (fmt : Z) (raw : list byte) : completion jsvalue :=
  let dv : DataView := raw in
  match fmt with
  | 0 => let* v := getUint8 dv 0 in Normal (Num v)
  | 1 => let* v := getUint16 dv 0 true in Normal (Num v)
  | 2 => let* v := getFloat32 dv 0 true in Normal (Num v)
  | 3 => let* v := getFloat64 dv 0 true in Normal (Num v)
  | 4 => let* v := getInt16 dv 0 true in Normal (Num (v / number_of_Z 100)%float)
  | 5 => let* v := getUint16 dv 0 true in Normal (Num (v / number_of_Z 10)%float)
  | _ => Normal (Raw raw)
  end%Z.

(** How one pass through a loop body ends: fall through to the next
    iteration, or [return] from the function. *)
Inductive flow (A : Type) : Type :=
  | Next (a : A)
  | Return (out : output).
Arguments Next {A} a.
Arguments Return {A} out.

(** Lines 24-72: the [for] loop over the sensors of one slave, with [n]
    iterations left.  [acc] holds [slaves], [warnings] and [errors]. *)
Fixpoint for_sensors (n : nat) (bytes : list byte) (acc : output)
    (pos : nat) (sensors : list sensor) : completion (flow (nat * list sensor)) :=
  match n with
  | O => Normal (Next (pos, sensors))
  | S n' =>
    if (length bytes <? pos + 2)%nat then
      Normal (Return (push_error acc "Truncated sensor header"))
    else
      let* type := read bytes pos in
      let* hdr := read bytes (pos + 1) in
      let pos := (pos + 2)%nat in
      let fmt := Z.shiftr hdr 5 in
      let index := Z.land hdr 0x1F in
      match FORMAT_LEN fmt with
      | None | Some O => Normal (Return (push_error acc (unknown_format fmt)))
      | Some len =>
        if (length bytes <? pos + len)%nat then
          Normal (Return (push_error acc "Truncated sensor value"))
        else
          let raw := slice bytes pos (pos + len) in
          let pos := (pos + len)%nat in
          let* value := decodeValue fmt raw in
          for_sensors n' bytes acc pos
            (sensors ++ [ {| type := type; index := index; format := fmt;
                             value := value |} ])
      end
  end.

(** Lines 18-81: the [while] loop over the slave blocks and the check
    that follows it. *)
Fixpoint while_slaves (fuel : nat) (bytes : list byte) (acc : output)
    (pos : nat) : completion output :=
  if (pos + 3 <=? length bytes)%nat then
    match fuel with
    | O => Abrupt OutOfFuel
    | S fuel' =>
      let* hi := read bytes pos in
      let* lo := read bytes (pos + 1) in
      let sid := Z.lor (Z.shiftl hi 8) lo in
      let pos := (pos + 2)%nat in
      let* sensorCount := read bytes pos in
      let pos := (pos + 1)%nat in
      let* r := for_sensors (Z.to_nat sensorCount) bytes acc pos [] in
      match r with
      | Return out => Normal out
      | Next (pos, sensors) =>
        while_slaves fuel' bytes
          (push_slave acc {| id := sid; sensors := sensors |}) pos
      end
    end
  else if (pos =? length bytes)%nat then Normal acc
  else Normal (push_warning acc "Extra bytes at end of payload").

Definition decodeUplink (bytes : list byte) : completion output :=
  while_slaves (length bytes) bytes
    {| slaves := []; warnings := []; errors := [] |} 0.

(** ** The wire format, as the specification lays it out

    The frames a station sends and their byte layout: a 16-bit big-endian
    slave id and a sensor count, then per sensor a type byte, a header
    byte holding the format in its top three bits and the index in its low
    five, and the value bytes.  These definitions follow the
    specification, not the decoder; the theorems compare the two. *)

Definition byte_of_Z (z : Z) : byte :=
  default "000"%byte (Byte.of_N (Z.to_N (z mod 256))).

Record reading : Type := Reading
  { r_type : Z; r_format : Z; r_index : Z; r_raw : list byte }.

Record frame : Type := Frame
  { f_id : Z; f_readings : list reading }.

Definition wire_reading (r : reading) : list byte :=
  byte_of_Z (r_type r) :: byte_of_Z (r_format r * 32 + r_index r) :: r_raw r.

Definition wire_readings (rs : list reading) : list byte :=
  concat (map wire_reading rs).

Definition wire_frame (f : frame) : list byte :=
  byte_of_Z (f_id f / 256) :: byte_of_Z (f_id f mod 256)
    :: byte_of_Z (Z.of_nat (length (f_readings f)))
    :: wire_readings (f_readings f).

Definition wire (fs : list frame) : list byte :=
  concat (map wire_frame fs).

Definition reading_ok (r : reading) : bool :=
  (0 <=? r_type r)%Z && (r_type r <? 256)%Z
  && (0 <=? r_index r)%Z && (r_index r <? 32)%Z
  && (0 <=? r_format r)%Z && (r_format r <=? 5)%Z
  && bool_decide (FORMAT_LEN (r_format r) = Some (length (r_raw r))).

Definition frame_ok (f : frame) : bool :=
  (0 <=? f_id f)%Z && (f_id f <? 65536)%Z
  && (length (f_readings f) <? 256)%nat
  && forallb reading_ok (f_readings f).

(** The format table of the specification: the value of the bytes [raw]
    under format code [fmt]. *)
Definition format_value (fmt : Z) (raw : list byte) : jsvalue :=
  let u := le_value raw in
  match fmt with
  | 0 => Num (number_of_Z u)
  | 1 => Num (number_of_Z u)
  | 2 => Num (float32_of_bits u)
  | 3 => Num (float64_of_bits u)
  | 4 => Num (number_of_Z (signed 16 u) / number_of_Z 100)%float
  | 5 => Num (number_of_Z u / number_of_Z 10)%float
  | _ => Raw raw
  end%Z.

Definition decoded_reading (r : reading) : sensor :=
  {| type := r_type r; index := r_index r; format := r_format r;
     value := format_value (r_format r) (r_raw r) |}.

Definition decoded_frame (f : frame) : slave :=
  {| id := f_id f; sensors := map decoded_reading (f_readings f) |}.

(** The encodings of a 16-bit quantity, least significant byte first. *)
Definition uint16_le (n : Z) : list byte :=
  [byte_of_Z n; byte_of_Z (n / 256)].

Definition int16_le (n : Z) : list byte :=
  uint16_le (n mod 65536).

(** What stops the decoder at a sensor: the bytes left where the sensor
    should start, and the error reported. *)
Inductive stops_with : list byte -> string -> Prop :=
  | stops_header (tail : list byte) :
      (length tail < 2)%nat ->
      stops_with tail "Truncated sensor header"
  | stops_format (t hdr : byte) (rest : list byte) :
      FORMAT_LEN (Z.shiftr (byte_val hdr) 5) = None ->
      stops_with (t :: hdr :: rest)
                 (unknown_format (Z.shiftr (byte_val hdr) 5))
  | stops_value (t hdr : byte) (rest : list byte) (len : nat) :
      FORMAT_LEN (Z.shiftr (byte_val hdr) 5) = Some len ->
      (length rest < len)%nat ->
      stops_with (t :: hdr :: rest) "Truncated sensor value".

(** A block the decoder cannot finish: its three opening bytes, fewer
    readings than it announces, and bytes that stop the decoder. *)
Inductive broken_block : list byte -> string -> Prop :=
  | broken (hi lo cnt : byte) (rs : list reading) (tail : list byte)
           (msg : string) :
      forallb reading_ok rs = true ->
      (length rs < Z.to_nat (byte_val cnt))%nat ->
      stops_with tail msg ->
      broken_block (hi :: lo :: cnt :: wire_readings rs ++ tail) msg.

Definition prepend_slaves (pre : list slave) (o : output) : output :=
  {| slaves := pre ++ slaves o; warnings := warnings o; errors := errors o |}.

Definition map_completion {A B} (f : A -> B) (c : completion A) : completion B :=
  let* a := c in Normal (f a).

(** The result of a sensor loop run [k] bytes further into the input. *)
Definition advance (k : nat) (r : flow (nat * list sensor))
  : flow (nat * list sensor) :=
  match r with
  | Next (pos, sensors) => Next ((k + pos)%nat, sensors)
  | Return out => Return out
  end.

(** ** What a returned payload looks like *)

Definition is_number (v : jsvalue) : bool :=
  match v with Num _ => true | Raw _ => false end.

Definition sensor_ok (s : sensor) : bool :=
  (0 <=? type s)%Z && (type s <? 256)%Z
  && (0 <=? index s)%Z && (index s <? 32)%Z
  && (0 <=? format s)%Z && (format s <=? 5)%Z
  && is_number (value s).

Definition slave_ok (s : slave) : bool :=
  (0 <=? id s)%Z && (id s <? 65536)%Z
  && (length (sensors s) <? 256)%nat
  && forallb sensor_ok (sensors s).

(** The errors the decoder can report. *)
Definition known_errors : list string :=
  [ "Truncated sensor header"; "Truncated sensor value";
    "Unknown format 6"; "Unknown format 7" ]%string.

(** The bytes a returned sensor and a returned slave took on the wire. *)
Definition sensor_size (s : sensor) : nat :=
  (2 + default 0 (FORMAT_LEN (format s)))%nat.

Definition slave_size (s : slave) : nat :=
  (3 + list_sum (map sensor_size (sensors s)))%nat.

Definition count_sensors (ss : list slave) : nat :=
  list_sum (map (fun s => length (sensors s)) ss).

End Formatter.

(* ===================================================================== *)
(** * Part II: main.go                                                    *)
(* ===================================================================== *)

Module Ingestor.

(** ** Library types *)

(** [time.Time]: an instant, in nanoseconds since January 1, year 1,
    00:00:00 UTC (the zero value), and the offset of its location. *)
Record Time : Type := mkTime { instant : Z; zone : Z }.

Definition IsZero (t : Time) : bool := (instant t =? 0)%Z.
Definition UTC (t : Time) : Time := {| instant := instant t; zone := 0 |}.

(** What [strings.ToUpper] does to a string of ASCII bytes: the letters
    a-z become A-Z.  On other strings [strings.ToUpper] maps every Unicode
    letter, which this does not follow; the handler takes the library
    function as a parameter, and this one stands in for it on the sample
    data, whose EUIs are hexadecimal. *)
Definition upper_ascii (c : ascii) : ascii :=
  let n := nat_of_ascii c in
  if ((97 <=? n) && (n <=? 122))%nat then ascii_of_nat (n - 32) else c.

Fixpoint ToUpperASCII (s : string) : string :=
  match s with
  | EmptyString => EmptyString
  | String c s' => String (upper_ascii c) (ToUpperASCII s')
  end.

Fixpoint ascii_only (s : string) : bool :=
  match s with
  | EmptyString => true
  | String c s' => (nat_of_ascii c <? 128)%nat && ascii_only s'
  end.

Definition nonempty (s : string) : bool :=
  match s with EmptyString => false | String _ _ => true end.

(** ** JSON types (main.go, lines 30-101) *)

Record Sensor : Type := mkSensor
  { Format : Z; Index : Z; Type_ : Z; Value : float }.

Record Slave : Type := mkSlave
  { ID : Z; Sensors : list Sensor }.

Record DecodedPayload : Type := mkDecodedPayload
  { Slaves : list Slave }.

Record Location : Type := mkLocation
  { Latitude : float; Longitude : float }.

Record RxMetadata : Type := mkRxMetadata
  { GatewayID : string; EUI : string;
    RSSI : option Z; SNR : option float;
    RxTime : option Time; RxLocation : option Location }.

Record UplinkSettings : Type := mkUplinkSettings
  { Bandwidth : option Z; SpreadingFactor : option Z;
    CodingRate : string; Frequency : string }.

Record UplinkMsg : Type := mkUplinkMsg
  { FPort : Z;
    Payload : DecodedPayload;
    RxMeta : list RxMetadata;
    Settings : UplinkSettings;
    MsgReceivedAt : Time }.

(** [DirectUp]: the embedded [UpCommon] and [Simulated].  The fields of
    [end_device_ids] are kept side by side: [device_id], [dev_eui] and
    [application_ids.application_id]. *)
Record DirectUp : Type := mkDirectUp
  { DeviceID : string; DevEUI : string; ApplicationID : string;
    ReceivedAt : Time;
    UplinkMessage : UplinkMsg;
    Simulated : option bool }.

Record Parsed : Type := mkParsed
  { When : Time;
    StationEUI : string;
    StationDevID : string;
    AppID : string;
    Msg : UplinkMsg }.

(** [mqtt.Message], as far as the handler looks at it. *)
Record Message : Type := mkMessage
  { Topic : string; Qos : Z; Retained : bool; MsgPayload : list byte }.

(** ** Sensor type validation (lines 134-138) *)

Definition validSensorTypes : gset Z :=
  {[ 1; 2; 3; 4; 5; 6; 7; 8; 9; 10; 11; 12; 13; 14; 15 ]}%Z.

(** ** SQL statements (lines 140-160), with their arguments *)

Record Measurement : Type := mkMeasurement
  { m_time : Time;
    m_station_eui : string;
    m_station_devid : option string;
    m_slave_id : Z;
    m_sensor_type : Z;
    m_sensor_index : Z;
    m_value : float;
    m_format : Z;
    m_gateway_id : option string;
    m_latitude : option float;
    m_longitude : option float }.

Inductive statement : Type :=
  | insertMeasurementSQL (row : Measurement)
  | upsertStationSQL (station_eui application_id : string)
                     (station_devid : option string)
  | upsertGatewaySQL (gateway_id gateway_eui : string).

(** ** Helpers (lines 181-188) *)

Definition nullIfEmpty (s : string) : option string :=
  if nonempty s then Some s else None.

Definition nullFloat (f : option float) : option float := f.

(** ** Log output

    A line of the log is kept as its format and arguments. *)
Inductive logline : Type :=
  | DebugTopic (topic : string) (qos : Z) (retained : bool)
  | DebugParsed (dev_eui : string)
  | DebugPayload (payload : list byte)
  | DebugSkip (type idx : Z) (value : float)
  | ParseError (err : string)
  | StationUpsertError (err : string)
  | GatewayUpsertError (err : string)
  | InsertError (err eui : string) (slave type idx : Z)
  | Ingested (count : nat) (eui : string).

(** The message of the error [parseUplink] returns. *)
Definition unknown_shape : string :=
  "unknown TTN uplink shape (expecting direct /up)".

Section Handler.

(** The collaborators of the handler: [json.Unmarshal] into a
    [DirectUp] ([None]: it returned an error), [strings.ToUpper], and the
    connection pool, whose [Exec] runs one statement and may return an
    error. *)
Variable Unmarshal : list byte -> option DirectUp.
Variable ToUpper : string -> string.
Variable DB : Type.
Variable Exec : DB -> statement -> DB * option string.

(** The [debug] flag, and the reading of the clock ([time.Now]). *)
Variable debug : bool.
Variable now : Time.

(** What a run acts on: the database, the statements sent to it so
    far, each with the error it came back with, and the log. *)
Record World : Type := mkWorld
  { db : DB;
    calls : list (statement * option string);
    logs : list logline }.

Definition logf (l : logline) (w : World) : World :=
  {| db := db w; calls := calls w; logs := logs w ++ [l] |}.

Definition debugf (l : logline) (w : World) : World :=
  if debug then logf l w else w.

Definition exec (q : statement) (w : World) : World * option string :=
  let (db', err) := Exec (db w) q in
  ({| db := db'; calls := calls w ++ [(q, err)]; logs := logs w |}, err).

(** Lines 103-132. *)
Definition parseUplink (b : list byte) (w : World)
  : World * (Parsed + string) :=
  match Unmarshal b with
  | Some du =>
    if nonempty (DevEUI du) then
      let when := MsgReceivedAt (UplinkMessage du) in
      let when := if IsZero when then ReceivedAt du else when in
      let when := if IsZero when then UTC now else when in
      (debugf (DebugParsed (DevEUI du)) w,
       inl {| When := UTC when;
              StationEUI := ToUpper (DevEUI du);
              StationDevID := DeviceID du;
              AppID := ApplicationID du;
              Msg := UplinkMessage du |})
    else
      (debugf (DebugPayload (if (2048 <? length b)%nat then take 2048 b else b)) w,
       inr unknown_shape)
  | None =>
    (debugf (DebugPayload (if (2048 <? length b)%nat then take 2048 b else b)) w,
     inr unknown_shape)
  end.

(** Lines 204-209. *)
Definition upsert_station (p : Parsed) (w : World) : World :=
  if nonempty (AppID p) && nonempty (StationEUI p) then
    let (w, err) :=
      exec (upsertStationSQL (StationEUI p) (AppID p)
                             (nullIfEmpty (StationDevID p))) w in
    match err with
    | Some e => logf (StationUpsertError e) w
    | None => w
    end
  else w.

(** Lines 211-226: the gateway id and the location, both from the
    first entry of [rx_metadata]. *)
Definition gateway_of (p : Parsed) : string * option float * option float :=
  match RxMeta (Msg p) with
  | rm :: _ =>
    match RxLocation rm with
    | Some loc => (GatewayID rm, Some (Latitude loc), Some (Longitude loc))
    | None => (GatewayID rm, None, None)
    end
  | [] => (EmptyString, None, None)
  end.

Definition upsert_gateway (p : Parsed) (w : World) : World :=
  match RxMeta (Msg p) with
  | rm :: _ =>
    if nonempty (GatewayID rm) then
      let (w, err) := exec (upsertGatewaySQL (GatewayID rm) (EUI rm)) w in
      match err with
      | Some e => logf (GatewayUpsertError e) w
      | None => w
      end
    else w
  | [] => w
  end.

(** The arguments of the insert at lines 235-238. *)
Definition row_of (p : Parsed) (s : Slave) (m : Sensor) : Measurement :=
  let '(gwID, lat, lon) := gateway_of p in
  {| m_time := When p;
     m_station_eui := StationEUI p;
     m_station_devid := nullIfEmpty (StationDevID p);
     m_slave_id := ID s;
     m_sensor_type := Type_ m;
     m_sensor_index := Index m;
     m_value := Value m;
     m_format := Format m;
     m_gateway_id := nullIfEmpty gwID;
     m_latitude := nullFloat lat;
     m_longitude := nullFloat lon |}.

(** Lines 231-243: the body of the inner loop. *)
Definition insert_reading (p : Parsed) (s : Slave)
    (st : World * nat) (m : Sensor) : World * nat :=
  let (w, count) := st in
  if bool_decide (Type_ m ∈ validSensorTypes) then
    let (w, err) := exec (insertMeasurementSQL (row_of p s m)) w in
    match err with
    | Some e =>
      (logf (InsertError e (StationEUI p) (ID s) (Type_ m) (Index m)) w, count)
    | None => (w, S count)
    end
  else (debugf (DebugSkip (Type_ m) (Index m) (Value m)) w, count).

(** The same body, on a reading paired with its slave. *)
Definition insert_sm (p : Parsed) (st : World * nat) (sm : Slave * Sensor)
  : World * nat := insert_reading p sm.1 st sm.2.

(** Lines 228-245. *)
Definition insert_measurements (p : Parsed) (w : World) : World * nat :=
  fold_left
    (fun st s => fold_left (insert_reading p s) (Sensors s) st)
    (Slaves (Payload (Msg p))) (w, O).

(** Lines 204-247: what the handler does with a parsed uplink. *)
Definition ingest (p : Parsed) (w : World) : World :=
  let w := upsert_station p w in
  let w := upsert_gateway p w in
  let (w, count) := insert_measurements p w in
  logf (Ingested count (StationEUI p)) w.

(** Lines 193-248. *)
Definition handleMessage (msg : Message) (w : World) : World :=
  let w := debugf (DebugTopic (Topic msg) (Qos msg) (Retained msg)) w in
  let (w, r) := parseUplink (MsgPayload msg) w in
  match r with
  | inr err => logf (ParseError err) w
  | inl p => ingest p w
  end.

End Handler.

Arguments db {DB} w.
Arguments calls {DB} w.
Arguments logs {DB} w.
Arguments mkWorld {DB} db calls logs.


(** ** The store

    The three tables as db/schema.sql declares them: [stations] from
    its EUI to its application id ([created_at] left out), [gateways] from
    the gateway id to its EUI, and [measurements] with its column types
    and its uniqueness constraint.  [store_exec] runs one statement of
    main.go on them.  The station upsert names a column [station_devid]
    that the [stations] table of db/schema.sql does not have, so on this
    schema it is answered with an error and writes nothing.  A measurement
    insert fails on a value outside its column, and passes over a row
    whose key is there. *)

Record Store : Type := mkStore
  { stations : gmap string string;
    gateways : gmap string string;
    measurements : list Measurement }.

(** The error for the column the [stations] table lacks. *)
Definition no_station_devid : string :=
  "column station_devid of relation stations does not exist".

(** A [timestamptz] holds microseconds. *)
Definition timestamptz (t : Time) : Z := (instant t / 1000)%Z.

Definition fits_smallint (z : Z) : bool := (-32768 <=? z)%Z && (z <=? 32767)%Z.
Definition fits_integer (z : Z) : bool :=
  (-2147483648 <=? z)%Z && (z <=? 2147483647)%Z.

(** [UNIQUE (time, station_eui, slave_id, sensor_type, sensor_index)] *)
Definition same_key (a b : Measurement) : bool :=
  (timestamptz (m_time a) =? timestamptz (m_time b))%Z
  && String.eqb (m_station_eui a) (m_station_eui b)
  && (m_slave_id a =? m_slave_id b)%Z
  && (m_sensor_type a =? m_sensor_type b)%Z
  && (m_sensor_index a =? m_sensor_index b)%Z.

Definition row_fits (r : Measurement) : bool :=
  fits_integer (m_slave_id r) && fits_smallint (m_sensor_type r)
  && fits_smallint (m_sensor_index r) && fits_smallint (m_format r).

Definition store_exec (d : Store) (q : statement) : Store * option string :=
  match q with
  | insertMeasurementSQL row =>
    if negb (row_fits row) then (d, Some "value out of range")
    else if existsb (same_key row) (measurements d) then
      (d, None) (* ON CONFLICT DO NOTHING *)
    else
      ({| stations := stations d; gateways := gateways d;
          measurements := measurements d ++ [row] |}, None)
  | upsertStationSQL eui app devid => (d, Some no_station_devid)
  | upsertGatewaySQL gw eui =>
    ({| stations := stations d;
        gateways := <[ gw := eui ]> (gateways d);
        measurements := measurements d |}, None)
  end.

(** ** What the properties speak of *)

(** The rows of the measurement inserts among the calls made, and the
    number of those inserts that came back without an error. *)
Definition measurement_rows (cs : list (statement * option string))
  : list Measurement :=
  flat_map (fun c => match c.1 with
                     | insertMeasurementSQL row => [row]
                     | _ => []
                     end) cs.

Definition insert_done (c : statement * option string) : bool :=
  match c with
  | (insertMeasurementSQL _, None) => true
  | _ => false
  end.

Definition inserts_done (cs : list (statement * option string)) : nat :=
  length (List.filter insert_done cs).

(** The timestamp of an uplink: the first that is not the zero time of
    the message's received time, the envelope's, and the clock. *)
Definition resolved_time (du : DirectUp) (now : Time) : Time :=
  if negb (IsZero (MsgReceivedAt (UplinkMessage du))) then
    MsgReceivedAt (UplinkMessage du)
  else if negb (IsZero (ReceivedAt du)) then ReceivedAt du
  else now.

(** All the readings of an uplink, in the order the loops visit them. *)
Definition readings (p : Parsed) : list (Slave * Sensor) :=
  flat_map (fun s => map (fun m => (s, m)) (Sensors s))
           (Slaves (Payload (Msg p))).

Definition valid_type (sm : Slave * Sensor) : bool :=
  (1 <=? Type_ sm.2)%Z && (Type_ sm.2 <=? 15)%Z.

Definition row_sm (p : Parsed) (sm : Slave * Sensor) : Measurement :=
  row_of p sm.1 sm.2.

(** A reading the store takes: valid type, values within the columns. *)
Definition persistable (p : Parsed) (sm : Slave * Sensor) : bool :=
  valid_type sm && row_fits (row_sm p sm).

Definition has_key (row : Measurement) (table : list Measurement) : bool :=
  existsb (same_key row) table.

(** ** Sample data *)

Definition no_settings : UplinkSettings :=
  {| Bandwidth := None; SpreadingFactor := None;
     CodingRate := EmptyString; Frequency := EmptyString |}.

Definition sample_sensor : Sensor :=
  {| Format := 4; Index := 0; Type_ := 1; Value := 21.5 |}.

Definition sample_slave : Slave :=
  {| ID := 1;
     Sensors := [ sample_sensor;
                  {| Format := 1; Index := 0; Type_ := 99; Value := 7 |};
                  {| Format := 5; Index := 1; Type_ := 2; Value := 40.5 |} ] |}.

(** An uplink of one slave with three readings, the second of a type
    this version does not know, received through one gateway. *)
Definition sample_uplink : DirectUp :=
  {| DeviceID := "station-1"; DevEUI := "70b3d57ed0069153";
     ApplicationID := "openclimate";
     ReceivedAt := {| instant := 5000; zone := 3600 |};
     UplinkMessage :=
       {| FPort := 1;
          Payload := {| Slaves := [sample_slave] |};
          RxMeta := [ {| GatewayID := "gw-1"; EUI := "AA";
                         RSSI := None; SNR := None; RxTime := None;
                         RxLocation := None |} ];
          Settings := no_settings;
          MsgReceivedAt := {| instant := 0; zone := 0 |} |};
     Simulated := None |}.

(** The same document without [end_device_ids.dev_eui]. *)
Definition sample_without_eui : DirectUp :=
  {| DeviceID := DeviceID sample_uplink; DevEUI := EmptyString;
     ApplicationID := ApplicationID sample_uplink;
     ReceivedAt := ReceivedAt sample_uplink;
     UplinkMessage := UplinkMessage sample_uplink;
     Simulated := None |}.

(** The same document with no slave in its payload. *)
Definition sample_no_reading : DirectUp :=
  {| DeviceID := DeviceID sample_uplink; DevEUI := DevEUI sample_uplink;
     ApplicationID := ApplicationID sample_uplink;
     ReceivedAt := ReceivedAt sample_uplink;
     UplinkMessage :=
       {| FPort := 1; Payload := {| Slaves := [] |};
          RxMeta := RxMeta (UplinkMessage sample_uplink);
          Settings := no_settings;
          MsgReceivedAt := {| instant := 0; zone := 0 |} |};
     Simulated := None |}.

(** A stand-in for [json.Unmarshal] on four payloads: the empty one is no
    JSON, ["001"] is [sample_without_eui], ["002"] is [sample_no_reading],
    any other is [sample_uplink]. *)
Definition sample_unmarshal (b : list byte) : option DirectUp :=
  match b with
  | [] => None
  | ["001"%byte] => Some sample_without_eui
  | ["002"%byte] => Some sample_no_reading
  | _ => Some sample_uplink
  end.

(** What [sample_uplink] is parsed to. *)
Definition sample_record : Parsed :=
  {| When := {| instant := 5000; zone := 0 |};
     StationEUI := "70B3D57ED0069153";
     StationDevID := "station-1";
     AppID := "openclimate";
     Msg := UplinkMessage sample_uplink |}.

Definition sample_message (payload : list byte) : Message :=
  {| Topic := "v3/openclimate/devices/station-1/up"; Qos := 0;
     Retained := false; MsgPayload := payload |}.

Definition sample_now : Time := {| instant := 9000; zone := 36000 |}.

(** A run that starts with nothing sent and nothing logged. *)
Definition fresh {DB : Type} (d : DB) : World DB :=
  {| db := d; calls := []; logs := [] |}.

Definition empty_store : Store :=
  {| stations := ∅; gateways := ∅; measurements := [] |}.

(** A pool whose every [Exec] fails. *)
Definition closed_pool (d : unit) (q : statement) : unit * option string :=
  (d, Some "closed pool"%string).

(** ** More of what the properties speak of *)

(** The statements handling a record sends, in order. *)
Definition station_statement (p : Parsed) : list statement :=
  if nonempty (AppID p) && nonempty (StationEUI p) then
    [ upsertStationSQL (StationEUI p) (AppID p) (nullIfEmpty (StationDevID p)) ]
  else [].

Definition gateway_statement (p : Parsed) : list statement :=
  match RxMeta (Msg p) with
  | rm :: _ =>
    if nonempty (GatewayID rm) then [ upsertGatewaySQL (GatewayID rm) (EUI rm) ]
    else []
  | [] => []
  end.

Definition insert_statements (p : Parsed) (l : list (Slave * Sensor))
  : list statement :=
  map (fun sm => insertMeasurementSQL (row_sm p sm)) (List.filter valid_type l).

Definition statements_of (p : Parsed) : list statement :=
  station_statement p ++ gateway_statement p
    ++ insert_statements p (readings p).

(** The database after a list of statements, run in order. *)
Definition run {DB : Type} (Exec : DB -> statement -> DB * option string)
    (qs : list statement) (d : DB) : DB :=
  fold_left (fun d q => (Exec d q).1) qs d.

(** The lines that [debugf] writes, and the insert-error lines. *)
Definition is_debug (l : logline) : bool :=
  match l with
  | DebugTopic _ _ _ | DebugParsed _ | DebugPayload _ | DebugSkip _ _ _ => true
  | _ => false
  end.

Definition plain (ls : list logline) : list logline :=
  List.filter (fun l => negb (is_debug l)) ls.

(** Two runs that differ in their debug output at most. *)
Definition same_but_debug {DB : Type} (w1 w2 : World DB) : Prop :=
  db w1 = db w2 /\ calls w1 = calls w2 /\ plain (logs w1) = plain (logs w2).

Definition is_insert_error (l : logline) : bool :=
  match l with InsertError _ _ _ _ _ => true | _ => false end.

Definition insert_errors (ls : list logline) : nat :=
  length (List.filter is_insert_error ls).

(** The same record, with the first entry of [rx_metadata] only. *)
Definition first_gateway_only (p : Parsed) : Parsed :=
  {| When := When p; StationEUI := StationEUI p;
     StationDevID := StationDevID p; AppID := AppID p;
     Msg := {| FPort := FPort (Msg p); Payload := Payload (Msg p);
               RxMeta := take 1 (RxMeta (Msg p));
               Settings := Settings (Msg p);
               MsgReceivedAt := MsgReceivedAt (Msg p) |} |}.

(** No two rows of a table with the same key. *)
Fixpoint unique_keys (table : list Measurement) : bool :=
  match table with
  | [] => true
  | row :: rest => negb (has_key row rest) && unique_keys rest
  end.

End Ingestor.

(* ===================================================================== *)
(** * Part III: main.go, start-up                                         *)
(* ===================================================================== *)

Module Startup.

(** How the start of [main] ends: it goes on, or [log.Fatalf] ends the
    process with a message. *)
Inductive start (A : Type) : Type :=
  | Going (a : A)
  | Fatal (msg : string).
Arguments Going {A} a.
Arguments Fatal {A} msg.

Definition and_then {A B} (c : start A) (k : A -> start B) : start B :=
  match c with
  | Going a => k a
  | Fatal msg => Fatal msg
  end.

Notation "'do' x '<-' c ';' k" := (and_then c (fun x => k))
  (at level 10, x name, c at level 100, k at level 200).

(** The calls [main] makes on the client options, lines 274-299.  The two
    handlers are closures; of the connect handler the topic is kept. *)
Inductive option_call : Type :=
  | AddBroker (server : string)
  | SetClientID (id : string)
  | SetTLSConfig (MinVersion : Z)
  | SetUsername (u : string)
  | SetPassword (pw : string)
  | SetAutoReconnect (a : bool)
  | SetConnectionLostHandler
  | SetOnConnectHandler (topic : string).

(** [tls.VersionTLS12] *)
Definition VersionTLS12 : Z := 0x0303.

(** [randSuffix], line 190, from the clock's [UnixNano]. *)
Definition randSuffix (unixNano : Z) : string :=
  NilEmpty.string_of_int (Z.to_int (Z.rem unixNano 1000000000)).

Section Env.

(** [os.Getenv]: the value of a variable, empty when it is not set. *)
Variable Getenv : string -> string.

(** [pgxpool.New]: the error it returns for a connection string, if any. *)
Variable PoolNew : string -> option string.

(** Lines 164-171. *)
Definition mustEnv (k : string) : start string :=
  let v := Getenv k in
  if Ingestor.nonempty v then Going v
  else Fatal (String.append "missing env " k).

(** Lines 173-179. *)
Definition envOr (k d : string) : string :=
  let v := Getenv k in
  if Ingestor.nonempty v then v else d.

(** What [main] has settled once the client options are built. *)
Record settings : Type := mkSettings
  { pgdsn : string; topic : string; opts : list option_call }.

(** Lines 257-299, with [unixNano] the clock read by [randSuffix]. *)
Definition main (unixNano : Z) : start settings :=
  do pgdsn <- mustEnv "PG_DSN";
  do appID <- mustEnv "TTN_APP_ID";
  do apiKey <- mustEnv "TTN_API_KEY";
  do host <- mustEnv "TTN_REGION_HOST";
  let port := envOr "TTN_MQTT_PORT" "1883" in
  let authEnabled := envOr "MQTT_USE_AUTH" "true" in
  let protocol := envOr "TTN_MQTT_PROTOCOL" "mqtt" in
  do topic <- mustEnv "MQTT_TOPIC";
  match PoolNew pgdsn with
  | Some err => Fatal (String.append "pgx pool: " err)
  | None =>
    let opts :=
      [ AddBroker (String.append protocol
                     (String.append "://"
                        (String.append host (String.append ":" port))));
        SetClientID (String.append "ttn-uplink-ingestor-" (randSuffix unixNano)) ] in
    let opts :=
      if String.prefix "mqtts" protocol then opts ++ [SetTLSConfig VersionTLS12]
      else opts in
    let opts :=
      if String.eqb authEnabled "true" then
        opts ++ [SetUsername appID; SetPassword apiKey]
      else opts in
    let opts :=
      opts ++ [ SetAutoReconnect true; SetConnectionLostHandler;
                SetOnConnectHandler topic ] in
    Going {| pgdsn := pgdsn; topic := topic; opts := opts |}
  end.

End Env.

(** The variables [main] cannot start without, in the order it reads
    them. *)
Definition required : list string :=
  [ "PG_DSN"; "TTN_APP_ID"; "TTN_API_KEY"; "TTN_REGION_HOST"; "MQTT_TOPIC" ]%string.

(** An environment given as a list of bindings. *)
Fixpoint lookup_env (env : list (string * string)) (k : string) : string :=
  match env with
  | [] => EmptyString
  | (k', v) :: rest => if String.eqb k k' then v else lookup_env rest k
  end.

Definition sample_env : list (string * string) :=
  [ ("PG_DSN", "postgres://db/weather"); ("TTN_APP_ID", "openclimate");
    ("TTN_API_KEY", "NNSXS.KEY"); ("TTN_REGION_HOST", "au1.cloud.thethings.network");
    ("MQTT_TOPIC", "v3/+/devices/+/up") ]%string.

End Startup.

(* ===================================================================== *)
(** * Properties of the payload formatter                                 *)
(* ===================================================================== *)

Module FormatterFacts.
Import Formatter.

(** ** Bytes and bit fields *)

Lemma byte_val_range (b : byte) : (0 <= byte_val b < 256)%Z.
Proof.
  unfold byte_val. pose proof (Byte.to_N_bounded b) as H. lia.
Qed.

Lemma byte_val_of_Z (z : Z) : (0 <= z < 256)%Z -> byte_val (byte_of_Z z) = z.
Proof.
  intros Hz. unfold byte_of_Z, byte_val.
  rewrite Z.mod_small by lia.
  destruct (Byte.of_N (Z.to_N z)) as [b|] eqn:E.
  - apply Byte.to_of_N in E. simpl. rewrite E. lia.
  - apply Byte.of_N_None_iff in E. lia.
Qed.

Lemma byte_of_Z_mod (z : Z) : byte_val (byte_of_Z z) = (z mod 256)%Z.
Proof.
  pose proof (Z.mod_pos_bound z 256 ltac:(lia)) as Hm.
  rewrite <- (byte_val_of_Z (z mod 256)) by lia.
  unfold byte_of_Z. now rewrite Z.mod_mod by lia.
Qed.

Lemma byte_of_Z_val (b : byte) : byte_of_Z (byte_val b) = b.
Proof.
  pose proof (byte_val_range b) as Hb.
  unfold byte_of_Z. rewrite Z.mod_small by lia.
  unfold byte_val. rewrite N2Z.id, Byte.of_to_N. reflexivity.
Qed.

Lemma header_format (f i : Z) :
  (0 <= i < 32)%Z -> Z.shiftr (f * 32 + i) 5 = f.
Proof.
  intros Hi. rewrite Z.shiftr_div_pow2 by lia.
  change (2 ^ 5)%Z with 32%Z. symmetry. apply Z.div_unique with i; lia.
Qed.

Lemma header_index (f i : Z) :
  (0 <= i < 32)%Z -> Z.land (f * 32 + i) 31 = i.
Proof.
  intros Hi. change 31%Z with (Z.ones 5). rewrite Z.land_ones by lia.
  change (2 ^ 5)%Z with 32%Z. symmetry. apply Z.mod_unique with f; lia.
Qed.

Lemma header_split (h : Z) :
  (Z.shiftr h 5 * 32 + Z.land h 31)%Z = h.
Proof.
  rewrite Z.shiftr_div_pow2 by lia.
  change 31%Z with (Z.ones 5). rewrite Z.land_ones by lia.
  change (2 ^ 5)%Z with 32%Z. pose proof (Z.div_mod h 32). lia.
Qed.

(** The slave id: [(hi << 8) | lo] is the big-endian value of the pair. *)
Lemma big_endian_id (hi lo : Z) :
  (0 <= lo < 256)%Z -> Z.lor (Z.shiftl hi 8) lo = (hi * 256 + lo)%Z.
Proof.
  intros Hlo.
  assert (Hdisj : Z.land (Z.shiftl hi 8) lo = 0%Z).
  { apply Z.bits_inj'. intros n Hn. rewrite Z.land_spec, Z.bits_0.
    destruct (Z.lt_ge_cases n 8) as [Hlt|Hge].
    - rewrite Z.shiftl_spec_low by lia. reflexivity.
    - rewrite andb_comm.
      replace (Z.testbit lo n) with false; [reflexivity|].
      symmetry. destruct (Z.eq_dec lo 0%Z) as [->|Hne].
      + apply Z.bits_0.
      + apply Z.bits_above_log2; [lia|].
        apply Z.lt_le_trans with 8%Z; [|lia].
        apply Z.log2_lt_pow2; [lia|]. change (2 ^ 8)%Z with 256%Z. lia. }
  pose proof (Z.add_lor_land (Z.shiftl hi 8) lo) as H.
  rewrite Hdisj in H. rewrite Z.shiftl_mul_pow2 in H |- * by lia.
  change (2 ^ 8)%Z with 256%Z in H |- *. lia.
Qed.

Lemma id_split (s : Z) :
  (0 <= s < 65536)%Z ->
  Z.lor (Z.shiftl (byte_val (byte_of_Z (s / 256))) 8)
        (byte_val (byte_of_Z (s mod 256))) = s.
Proof.
  intros Hs.
  assert (0 <= s / 256 < 256)%Z.
  { split; [apply Z.div_pos; lia | apply Z.div_lt_upper_bound; lia]. }
  pose proof (Z.mod_pos_bound s 256 ltac:(lia)).
  rewrite !byte_val_of_Z by lia. rewrite big_endian_id by lia.
  pose proof (Z.div_mod s 256). lia.
Qed.

(** ** Values *)

Lemma getRaw_whole (raw : list byte) (n : nat) :
  length raw = n -> getRaw raw 0 n true = Normal (le_value raw).
Proof.
  intros <-. unfold getRaw. simpl. rewrite Nat.leb_refl.
  rewrite drop_0, firstn_all. reflexivity.
Qed.

Lemma FORMAT_LEN_cases (fmt : Z) (len : nat) :
  FORMAT_LEN fmt = Some len ->
  (fmt = 0%Z /\ len = 1%nat) \/ (fmt = 1%Z /\ len = 2%nat)
  \/ (fmt = 2%Z /\ len = 4%nat) \/ (fmt = 3%Z /\ len = 8%nat)
  \/ (fmt = 4%Z /\ len = 2%nat) \/ (fmt = 5%Z /\ len = 2%nat).
Proof.
  unfold FORMAT_LEN.
  destruct fmt as [|[[[]|[]|]|[[]|[]|]|]|]; intros [= <-]; tauto.
Qed.

(** On a slice whose length the format table gives, the [switch] computes
    the value the format table of the specification names. *)
Lemma decodeValue_format_value (fmt : Z) (raw : list byte) :
  FORMAT_LEN fmt = Some (length raw) ->
  decodeValue fmt raw = Normal (format_value fmt raw).
Proof.
  intros Hlen.
  unfold decodeValue, format_value,
    getUint8, getUint16, getInt16, getFloat32, getFloat64.
  destruct (FORMAT_LEN_cases _ _ Hlen) as [[-> E]|[[-> E]|[[-> E]|[[-> E]|[[-> E]|[-> E]]]]]];
    rewrite (getRaw_whole _ _ E); reflexivity.
Qed.

Lemma FORMAT_LEN_pos (fmt : Z) (len : nat) :
  FORMAT_LEN fmt = Some len -> (0 < len)%nat.
Proof.
  intros H.
  destruct (FORMAT_LEN_cases _ _ H) as [[_ ->]|[[_ ->]|[[_ ->]|[[_ ->]|[[_ ->]|[_ ->]]]]]];
    lia.
Qed.

(** ** Reads relative to a prefix *)

Lemma read_app (pre bytes : list byte) (pos : nat) :
  read (pre ++ bytes) (length pre + pos) = read bytes pos.
Proof.
  unfold read. rewrite lookup_app_r by lia.
  replace (length pre + pos - length pre)%nat with pos by lia. reflexivity.
Qed.

Lemma slice_app (pre bytes : list byte) (a len : nat) :
  slice (pre ++ bytes) (length pre + a) (length pre + a + len)
  = slice bytes a (a + len).
Proof.
  unfold slice. rewrite drop_app_add'; [|reflexivity].
  f_equal. lia.
Qed.

Lemma slice_length (bytes : list byte) (a len : nat) :
  (a + len <= length bytes)%nat -> length (slice bytes a (a + len)) = len.
Proof.
  intros H. unfold slice. rewrite length_take, length_drop. lia.
Qed.


(** ** The loops, one iteration at a time *)

Lemma for_sensors_S n bytes acc pos ss :
  for_sensors (S n) bytes acc pos ss =
  if (length bytes <? pos + 2)%nat then
    Normal (Return (push_error acc "Truncated sensor header"))
  else
    let* type := read bytes pos in
    let* hdr := read bytes (pos + 1) in
    match FORMAT_LEN (Z.shiftr hdr 5) with
    | None | Some O =>
      Normal (Return (push_error acc (unknown_format (Z.shiftr hdr 5))))
    | Some len =>
      if (length bytes <? pos + 2 + len)%nat then
        Normal (Return (push_error acc "Truncated sensor value"))
      else
        let* value :=
          decodeValue (Z.shiftr hdr 5) (slice bytes (pos + 2) (pos + 2 + len)) in
        for_sensors n bytes acc (pos + 2 + len)
          (ss ++ [ {| type := type; index := Z.land hdr 31;
                      format := Z.shiftr hdr 5; value := value |} ])
    end.
Proof. reflexivity. Qed.

Lemma while_slaves_S fuel bytes acc pos :
  (pos + 3 <= length bytes)%nat ->
  while_slaves (S fuel) bytes acc pos =
  let* hi := read bytes pos in
  let* lo := read bytes (pos + 1) in
  let* sensorCount := read bytes (pos + 2) in
  let* r := for_sensors (Z.to_nat sensorCount) bytes acc (pos + 2 + 1) [] in
  match r with
  | Return out => Normal out
  | Next (pos', sensors) =>
    while_slaves fuel bytes
      (push_slave acc {| id := Z.lor (Z.shiftl hi 8) lo; sensors := sensors |})
      pos'
  end.
Proof.
  intros H. simpl. destruct (Nat.leb_spec (pos + 3) (length bytes)); [|lia].
  reflexivity.
Qed.

Lemma while_slaves_end fuel bytes acc pos :
  (length bytes < pos + 3)%nat ->
  while_slaves fuel bytes acc pos =
  if (pos =? length bytes)%nat then Normal acc
  else Normal (push_warning acc "Extra bytes at end of payload").
Proof.
  intros H. destruct fuel; simpl;
    destruct (Nat.leb_spec (pos + 3) (length bytes)); (lia || reflexivity).
Qed.

Lemma read_head (b : byte) bytes : read (b :: bytes) 0 = Normal (byte_val b).
Proof. reflexivity. Qed.

Lemma read_second (a b : byte) bytes :
  read (a :: b :: bytes) (0 + 1) = Normal (byte_val b).
Proof. reflexivity. Qed.

Lemma read_third (a b c : byte) bytes :
  read (a :: b :: c :: bytes) (0 + 2) = Normal (byte_val c).
Proof. reflexivity. Qed.

Lemma read_in_range bytes pos :
  (pos < length bytes)%nat -> exists b, bytes !! pos = Some b /\ read bytes pos = Normal (byte_val b).
Proof.
  intros H. destruct (lookup_lt_is_Some_2 bytes pos H) as [b Hb].
  exists b. unfold read. rewrite Hb. auto.
Qed.


Ltac nat_cmp :=
  repeat match goal with
  | |- context [(?a <? ?b)%nat] => destruct (Nat.ltb_spec a b)
  | |- context [(?a <=? ?b)%nat] => destruct (Nat.leb_spec a b)
  | |- context [(?a =? ?b)%nat] => destruct (Nat.eqb_spec a b)
  end; try lia.

(** ** The sensor loop *)

(** A prefix of the input that lies before the position is not looked
    at: the loop runs on the rest as it does from the start. *)
Lemma for_sensors_app pre n bytes acc : forall pos ss,
  for_sensors n (pre ++ bytes) acc (length pre + pos) ss
  = map_completion (advance (length pre)) (for_sensors n bytes acc pos ss).
Proof.
  induction n as [|n IH]; intros pos ss; [reflexivity|].
  rewrite !for_sensors_S, length_app.
  nat_cmp; try reflexivity.
  rewrite <- (Nat.add_assoc (length pre) pos 1), !read_app.
  destruct (read bytes pos) as [t|]; [|reflexivity].
  destruct (read bytes (pos + 1)) as [hdr|]; [|reflexivity].
  cbn [bind].
  destruct (FORMAT_LEN (Z.shiftr hdr 5)) as [[|len]|]; try reflexivity.
  nat_cmp; try reflexivity.
  rewrite <- (Nat.add_assoc (length pre) pos 2), slice_app.
  destruct (decodeValue _ _) as [v|]; [|reflexivity].
  cbn [bind]. rewrite <- Nat.add_assoc. apply IH.
Qed.

(** The loop never leaves the input and never moves backwards. *)
Lemma for_sensors_progress n bytes acc : forall pos ss pos' ss',
  (pos <= length bytes)%nat ->
  for_sensors n bytes acc pos ss = Normal (Next (pos', ss')) ->
  (pos <= pos' <= length bytes)%nat.
Proof.
  induction n as [|n IH]; intros pos ss pos' ss' Hpos Hrun.
  - injection Hrun as <- <-. lia.
  - rewrite for_sensors_S in Hrun. revert Hrun. nat_cmp; [discriminate|].
    destruct (read bytes pos) as [t|]; [|discriminate].
    destruct (read bytes (pos + 1)) as [hdr|]; [|discriminate].
    cbn [bind].
    destruct (FORMAT_LEN (Z.shiftr hdr 5)) as [[|len]|]; try discriminate.
    nat_cmp; [discriminate|].
    destruct (decodeValue _ _) as [v|]; [|discriminate].
    cbn [bind]. intros Hrun. apply IH in Hrun; lia.
Qed.

(** Every read of the loop is guarded: it completes normally. *)
Lemma for_sensors_normal n bytes acc : forall pos ss,
  exists r, for_sensors n bytes acc pos ss = Normal r.
Proof.
  induction n as [|n IH]; intros pos ss; [eexists; reflexivity|].
  rewrite for_sensors_S. nat_cmp; [eexists; reflexivity|].
  destruct (read_in_range bytes pos) as (t & _ & ->); [lia|].
  destruct (read_in_range bytes (pos + 1)) as (hdr & _ & ->); [lia|].
  cbn [bind].
  destruct (FORMAT_LEN (Z.shiftr (byte_val hdr) 5)) as [[|len]|] eqn:Hlen;
    try (eexists; reflexivity).
  nat_cmp; [eexists; reflexivity|].
  rewrite decodeValue_format_value
    by (rewrite slice_length by lia; exact Hlen).
  cbn [bind]. apply IH.
Qed.

(** ** The slave loop *)

Lemma while_slaves_app pre fuel bytes : forall acc pos,
  while_slaves fuel (pre ++ bytes) acc (length pre + pos)
  = while_slaves fuel bytes acc pos.
Proof.
  induction fuel as [|fuel IH]; intros acc pos.
  - simpl. rewrite length_app. nat_cmp; reflexivity.
  - destruct (Nat.le_gt_cases (pos + 3) (length bytes)) as [Hle|Hgt].
    + rewrite !while_slaves_S by (rewrite ?length_app; lia).
      rewrite <- !(Nat.add_assoc (length pre) pos), !read_app.
      destruct (read bytes pos) as [hi|]; [|reflexivity].
      destruct (read bytes (pos + 1)) as [lo|]; [|reflexivity].
      destruct (read bytes (pos + 2)) as [cnt|]; [|reflexivity].
      cbn [bind].
      replace (length pre + (pos + 2) + 1)%nat
        with (length pre + (pos + 2 + 1))%nat by lia.
      rewrite for_sensors_app.
      destruct (for_sensors _ bytes acc _ _) as [[[pos' ss]|out]|];
        try reflexivity.
      cbn [map_completion bind advance]. apply IH.
    + rewrite !while_slaves_end by (rewrite ?length_app; lia).
      rewrite length_app. nat_cmp; reflexivity.
Qed.

(** Fuel: one unit per byte left is enough, and more changes nothing. *)
Lemma while_slaves_fuel fuel : forall fuel' bytes acc pos,
  (length bytes <= pos + fuel)%nat ->
  (length bytes <= pos + fuel')%nat ->
  while_slaves fuel bytes acc pos = while_slaves fuel' bytes acc pos.
Proof.
  induction fuel as [|fuel IH]; intros fuel' bytes acc pos H H'.
  - rewrite !while_slaves_end by lia. reflexivity.
  - destruct (Nat.le_gt_cases (pos + 3) (length bytes)) as [Hle|Hgt].
    + destruct fuel' as [|fuel']; [lia|].
      rewrite !while_slaves_S by lia.
      destruct (read bytes pos) as [hi|]; [|reflexivity].
      destruct (read bytes (pos + 1)) as [lo|]; [|reflexivity].
      destruct (read bytes (pos + 2)) as [cnt|]; [|reflexivity].
      cbn [bind].
      destruct (for_sensors _ bytes acc _ _) as [[[pos' ss]|out]|] eqn:E;
        try reflexivity.
      cbn [bind]. apply for_sensors_progress in E; [|lia].
      apply IH; lia.
    + rewrite !while_slaves_end by lia. reflexivity.
Qed.

Lemma while_slaves_normal fuel : forall bytes acc pos,
  (length bytes <= pos + fuel)%nat ->
  exists out, while_slaves fuel bytes acc pos = Normal out.
Proof.
  induction fuel as [|fuel IH]; intros bytes acc pos H.
  - rewrite while_slaves_end by lia. nat_cmp; eexists; reflexivity.
  - destruct (Nat.le_gt_cases (pos + 3) (length bytes)) as [Hle|Hgt].
    + rewrite while_slaves_S by lia.
      destruct (read_in_range bytes pos) as (hi & _ & ->); [lia|].
      destruct (read_in_range bytes (pos + 1)) as (lo & _ & ->); [lia|].
      destruct (read_in_range bytes (pos + 2)) as (cnt & _ & ->); [lia|].
      cbn [bind].
      destruct (for_sensors_normal (Z.to_nat (byte_val cnt)) bytes acc
                  (pos + 2 + 1) []) as [[[pos' ss]|out] E]; rewrite E; cbn [bind].
      * apply for_sensors_progress in E; [|lia]. apply IH; lia.
      * eexists; reflexivity.
    + rewrite while_slaves_end by lia. nat_cmp; eexists; reflexivity.
Qed.

(** What is already collected passes through the loops untouched. *)
Lemma for_sensors_prepend pre n bytes acc : forall pos ss,
  for_sensors n bytes (prepend_slaves pre acc) pos ss
  = map_completion
      (fun r => match r with
                | Next a => Next a
                | Return out => Return (prepend_slaves pre out)
                end)
      (for_sensors n bytes acc pos ss).
Proof.
  induction n as [|n IH]; intros pos ss; [reflexivity|].
  rewrite !for_sensors_S. nat_cmp; try reflexivity.
  destruct (read bytes pos) as [t|]; [|reflexivity].
  destruct (read bytes (pos + 1)) as [hdr|]; [|reflexivity].
  cbn [bind].
  destruct (FORMAT_LEN (Z.shiftr hdr 5)) as [[|len]|]; try reflexivity.
  nat_cmp; try reflexivity.
  destruct (decodeValue _ _) as [v|]; [|reflexivity].
  cbn [bind]. apply IH.
Qed.

Lemma push_slave_prepend pre acc s :
  push_slave (prepend_slaves pre acc) s = prepend_slaves pre (push_slave acc s).
Proof.
  unfold push_slave, prepend_slaves. simpl. now rewrite app_assoc.
Qed.

Lemma while_slaves_prepend pre fuel bytes : forall acc pos,
  while_slaves fuel bytes (prepend_slaves pre acc) pos
  = map_completion (prepend_slaves pre) (while_slaves fuel bytes acc pos).
Proof.
  induction fuel as [|fuel IH]; intros acc pos.
  - simpl. nat_cmp; reflexivity.
  - destruct (Nat.le_gt_cases (pos + 3) (length bytes)) as [Hle|Hgt].
    + rewrite !while_slaves_S by lia.
      destruct (read bytes pos) as [hi|]; [|reflexivity].
      destruct (read bytes (pos + 1)) as [lo|]; [|reflexivity].
      destruct (read bytes (pos + 2)) as [cnt|]; [|reflexivity].
      cbn [bind]. rewrite for_sensors_prepend.
      destruct (for_sensors _ bytes acc _ _) as [[[pos' ss]|out]|];
        try reflexivity.
      cbn [map_completion bind]. rewrite push_slave_prepend. apply IH.
    + rewrite !while_slaves_end by lia. nat_cmp; reflexivity.
Qed.


(** ** Frames on the wire *)

Lemma reading_ok_spec (r : reading) :
  reading_ok r = true ->
  (0 <= r_type r < 256)%Z /\ (0 <= r_index r < 32)%Z
  /\ (0 <= r_format r <= 5)%Z
  /\ FORMAT_LEN (r_format r) = Some (length (r_raw r)).
Proof.
  unfold reading_ok. rewrite !andb_true_iff, bool_decide_eq_true.
  rewrite !Z.leb_le, !Z.ltb_lt. tauto.
Qed.

Lemma frame_ok_spec (f : frame) :
  frame_ok f = true ->
  (0 <= f_id f < 65536)%Z /\ (length (f_readings f) < 256)%nat
  /\ forallb reading_ok (f_readings f) = true.
Proof.
  unfold frame_ok. rewrite !andb_true_iff, Z.leb_le, Z.ltb_lt, Nat.ltb_lt.
  tauto.
Qed.

Lemma advance_advance a b r : advance a (advance b r) = advance (a + b) r.
Proof. destruct r as [[pos ss]|out]; simpl; [f_equal; f_equal; lia|reflexivity]. Qed.

Lemma map_advance_advance a b c :
  map_completion (advance a) (map_completion (advance b) c)
  = map_completion (advance (a + b)) c.
Proof. destruct c as [r|]; simpl; [now rewrite advance_advance|reflexivity]. Qed.

(** One well-formed reading at the head of the input is one iteration
    of the sensor loop. *)
Lemma for_sensors_reading r n rest acc ss :
  reading_ok r = true ->
  for_sensors (S n) (wire_reading r ++ rest) acc 0 ss
  = map_completion (advance (length (wire_reading r)))
      (for_sensors n rest acc 0 (ss ++ [decoded_reading r])).
Proof.
  intros Hok. apply reading_ok_spec in Hok as (Ht & Hi & Hf & Hlen).
  pose proof (FORMAT_LEN_pos _ _ Hlen) as Hpos.
  rewrite for_sensors_S. unfold wire_reading. cbn [app].
  set (h := byte_of_Z (r_format r * 32 + r_index r)).
  assert (Hh : byte_val h = (r_format r * 32 + r_index r)%Z)
    by (apply byte_val_of_Z; lia).
  rewrite read_head, read_second. cbn [bind length].
  rewrite length_app. nat_cmp. clear H.
  rewrite Hh, header_format, header_index, Hlen by lia.
  destruct (length (r_raw r)) as [|len'] eqn:Elen; [lia|]. rewrite <- Elen.
  nat_cmp. clear H.
  assert (Hslice : slice (byte_of_Z (r_type r) :: h :: r_raw r ++ rest)
                     (0 + 2) (0 + 2 + length (r_raw r)) = r_raw r).
  { unfold slice. cbn [Nat.add drop].
    replace (S (S (length (r_raw r))) - 2)%nat with (length (r_raw r)) by lia.
    now rewrite drop_0, take_app_length. }
  rewrite Hslice, decodeValue_format_value by (rewrite Elen; exact Hlen).
  cbn [bind]. rewrite byte_val_of_Z by lia.
  change (byte_of_Z (r_type r) :: h :: r_raw r ++ rest)
    with ((byte_of_Z (r_type r) :: h :: r_raw r) ++ rest).
  replace (0 + 2 + length (r_raw r))%nat
    with (length (byte_of_Z (r_type r) :: h :: r_raw r) + 0)%nat
    by (simpl; lia).
  rewrite for_sensors_app. reflexivity.
Qed.

Lemma wire_readings_cons r rs :
  wire_readings (r :: rs) = wire_reading r ++ wire_readings rs.
Proof. reflexivity. Qed.

Lemma wire_cons f fs : wire (f :: fs) = wire_frame f ++ wire fs.
Proof. reflexivity. Qed.

(** A run of well-formed readings is as many iterations; the loop then
    goes on with what follows them. *)
Lemma for_sensors_readings rs : forall m rest acc ss,
  forallb reading_ok rs = true ->
  for_sensors (length rs + m) (wire_readings rs ++ rest) acc 0 ss
  = map_completion (advance (length (wire_readings rs)))
      (for_sensors m rest acc 0 (ss ++ map decoded_reading rs)).
Proof.
  induction rs as [|r rs IH]; intros m rest acc ss Hok.
  - simpl. rewrite app_nil_r.
    destruct (for_sensors m rest acc 0 ss) as [[[pos ss']|out]|]; reflexivity.
  - simpl in Hok. apply andb_true_iff in Hok as [Hr Hrs].
    rewrite !wire_readings_cons, <- app_assoc.
    cbn [length Nat.add map]. rewrite for_sensors_reading by exact Hr.
    rewrite IH by exact Hrs.
    rewrite map_advance_advance, length_app, <- app_assoc. reflexivity.
Qed.

(** Where the decoder stops. *)
Lemma for_sensors_stops tail msg n acc ss :
  stops_with tail msg ->
  for_sensors (S n) tail acc 0 ss = Normal (Return (push_error acc msg)).
Proof.
  intros Hstop. rewrite for_sensors_S.
  destruct Hstop as [tail Hlen|t hdr rest Hfmt|t hdr rest len Hfmt Hlen].
  - nat_cmp. reflexivity.
  - rewrite read_head, read_second. cbn [bind length]. nat_cmp. clear H.
    rewrite Hfmt. reflexivity.
  - pose proof (FORMAT_LEN_pos _ _ Hfmt) as Hpos.
    rewrite read_head, read_second. cbn [bind length]. nat_cmp. clear H.
    rewrite Hfmt. destruct len as [|len']; [lia|].
    nat_cmp. reflexivity.
Qed.

Lemma wire_frame_length f :
  length (wire_frame f) = (3 + length (wire_readings (f_readings f)))%nat.
Proof. reflexivity. Qed.

(** The three bytes that open a block, followed by [n] sensors. *)
Lemma while_slaves_block fuel (hi lo cnt : byte) body acc :
  while_slaves (S fuel) (hi :: lo :: cnt :: body) acc 0
  = let* r := map_completion (advance 3)
                (for_sensors (Z.to_nat (byte_val cnt)) body acc 0 []) in
    match r with
    | Return out => Normal out
    | Next (pos', sensors) =>
      while_slaves fuel (hi :: lo :: cnt :: body)
        (push_slave acc
           {| id := Z.lor (Z.shiftl (byte_val hi) 8) (byte_val lo);
              sensors := sensors |}) pos'
    end.
Proof.
  rewrite while_slaves_S by (simpl; lia).
  rewrite read_head, read_second, read_third. cbn [bind].
  change (hi :: lo :: cnt :: body) with ([hi; lo; cnt] ++ body) at 1.
  change (0 + 2 + 1)%nat with (length [hi; lo; cnt] + 0)%nat.
  rewrite for_sensors_app. reflexivity.
Qed.

(** One well-formed frame at the head of the input is one iteration of
    the slave loop, which collects the frame and goes on behind it. *)
Lemma while_slaves_frame f fuel fuel' rest acc :
  frame_ok f = true ->
  (length (wire_frame f ++ rest) <= fuel)%nat ->
  (length rest <= fuel')%nat ->
  while_slaves fuel (wire_frame f ++ rest) acc 0
  = while_slaves fuel' rest (push_slave acc (decoded_frame f)) 0.
Proof.
  intros Hok Hfuel Hfuel'.
  apply frame_ok_spec in Hok as (Hid & Hcnt & Hrs).
  rewrite length_app, wire_frame_length in Hfuel.
  destruct fuel as [|fuel]; [lia|].
  unfold wire_frame. simpl app. rewrite while_slaves_block.
  rewrite byte_val_of_Z by lia. rewrite Nat2Z.id.
  rewrite <- (Nat.add_0_r (length (f_readings f))) at 1.
  rewrite for_sensors_readings by exact Hrs.
  cbn [for_sensors map_completion bind advance app].
  rewrite id_split by exact Hid.
  change (byte_of_Z (f_id f / 256) :: byte_of_Z (f_id f mod 256)
            :: byte_of_Z (Z.of_nat (length (f_readings f)))
            :: wire_readings (f_readings f) ++ rest)
    with ((byte_of_Z (f_id f / 256) :: byte_of_Z (f_id f mod 256)
            :: byte_of_Z (Z.of_nat (length (f_readings f)))
            :: wire_readings (f_readings f)) ++ rest).
  replace (3 + (length (wire_readings (f_readings f)) + 0))%nat
    with (length (byte_of_Z (f_id f / 256) :: byte_of_Z (f_id f mod 256)
            :: byte_of_Z (Z.of_nat (length (f_readings f)))
            :: wire_readings (f_readings f)) + 0)%nat by (simpl; lia).
  rewrite while_slaves_app. apply while_slaves_fuel; lia.
Qed.

Lemma while_slaves_frames fs : forall fuel fuel' rest acc,
  forallb frame_ok fs = true ->
  (length (wire fs ++ rest) <= fuel)%nat ->
  (length rest <= fuel')%nat ->
  while_slaves fuel (wire fs ++ rest) acc 0
  = while_slaves fuel' rest
      (fold_left push_slave (map decoded_frame fs) acc) 0.
Proof.
  induction fs as [|f fs IH]; intros fuel fuel' rest acc Hok Hfuel Hfuel'.
  - simpl. apply while_slaves_fuel; simpl in *; lia.
  - simpl in Hok. apply andb_true_iff in Hok as [Hf Hfs].
    rewrite wire_cons, <- app_assoc in Hfuel |- *.
    rewrite (while_slaves_frame f fuel (length (wire fs ++ rest)))
      by (assumption || lia).
    cbn [map fold_left]. apply IH; [assumption|lia|assumption].
Qed.

Lemma fold_push_slave (l : list slave) : forall acc,
  fold_left push_slave l acc = prepend_slaves (slaves acc ++ l)
    {| slaves := []; warnings := warnings acc; errors := errors acc |}.
Proof.
  induction l as [|s l IH]; intros acc.
  - simpl. unfold prepend_slaves. simpl. rewrite !app_nil_r. now destruct acc.
  - simpl. rewrite IH. unfold prepend_slaves. simpl.
    now rewrite !app_nil_r, <- app_assoc.
Qed.

(** The decoder on well-formed frames followed by anything: the frames
    come out first, then whatever the rest decodes to. *)
Lemma decodeUplink_frames fs rest :
  forallb frame_ok fs = true ->
  decodeUplink (wire fs ++ rest)
  = map_completion (prepend_slaves (map decoded_frame fs)) (decodeUplink rest).
Proof.
  intros Hok. unfold decodeUplink.
  rewrite (while_slaves_frames fs _ (length rest)) by (assumption || lia).
  rewrite fold_push_slave. simpl. apply while_slaves_prepend.
Qed.

(** No input makes the decoder throw, read past the end, or loop. *)
Lemma decodeUplink_normal bytes : exists out, decodeUplink bytes = Normal out.
Proof. apply while_slaves_normal. lia. Qed.

(** A block that cannot be finished ends the decoding with its error. *)
Lemma decodeUplink_broken block msg :
  broken_block block msg ->
  decodeUplink block
  = Normal {| slaves := []; warnings := []; errors := [msg] |}.
Proof.
  intros [hi lo cnt rs tail msg' Hrs Hcnt Hstop].
  unfold decodeUplink. cbn [length]. rewrite while_slaves_block.
  replace (Z.to_nat (byte_val cnt))
    with (length rs + S (Z.to_nat (byte_val cnt) - length rs - 1))%nat by lia.
  rewrite for_sensors_readings by exact Hrs.
  rewrite (for_sensors_stops _ _ _ _ _ Hstop). reflexivity.
Qed.

Lemma decodeUplink_short tail :
  (length tail < 3)%nat ->
  decodeUplink tail
  = Normal {| slaves := [];
              warnings := if (length tail =? 0)%nat then []
                          else ["Extra bytes at end of payload"%string];
              errors := [] |}.
Proof.
  intros H. unfold decodeUplink. rewrite while_slaves_end by lia.
  destruct tail; reflexivity.
Qed.

(** ** Every input is frames and a tail *)

(** From any bytes, [n] readings can be taken off the front, or fewer
    followed by bytes that stop the decoder. *)
Lemma readings_split (n : nat) : forall body : list byte,
  (exists rs rest,
      length rs = n /\ forallb reading_ok rs = true
      /\ body = wire_readings rs ++ rest)
  \/ (exists rs tail msg,
      (length rs < n)%nat /\ forallb reading_ok rs = true
      /\ body = wire_readings rs ++ tail /\ stops_with tail msg).
Proof.
  induction n as [|n IH]; intros body.
  - left. exists [], body. auto.
  - destruct body as [|t [|h body']].
    + right. exists [], [], "Truncated sensor header"%string.
      repeat split; [simpl; lia|]. apply stops_header. simpl. lia.
    + right. exists [], [t], "Truncated sensor header"%string.
      repeat split; [simpl; lia|]. apply stops_header. simpl. lia.
    + destruct (FORMAT_LEN (Z.shiftr (byte_val h) 5)) as [len|] eqn:Hfmt.
      2:{ right. eexists [], _, _. repeat split; [simpl; lia|].
          now apply stops_format. }
      destruct (Nat.le_gt_cases len (length body')) as [Hle|Hgt].
      2:{ right. eexists [], _, _. repeat split; [simpl; lia|].
          now apply (stops_value t h body' len). }
      set (r := {| r_type := byte_val t;
                   r_format := Z.shiftr (byte_val h) 5;
                   r_index := Z.land (byte_val h) 31;
                   r_raw := take len body' |}).
      assert (Hwire : t :: h :: body' = wire_reading r ++ drop len body').
      { unfold wire_reading, r. cbn [r_type r_format r_index r_raw app].
        now rewrite header_split, !byte_of_Z_val, take_drop. }
      assert (Hok : reading_ok r = true).
      { pose proof (byte_val_range t). pose proof (byte_val_range h).
        assert (0 <= Z.land (byte_val h) 31 < 32)%Z.
        { change 31%Z with (Z.ones 5). rewrite Z.land_ones by lia.
          apply Z.mod_pos_bound. reflexivity. }
        assert (0 <= Z.shiftr (byte_val h) 5 <= 5)%Z
          by (destruct (FORMAT_LEN_cases _ _ Hfmt)
                as [[-> _]|[[-> _]|[[-> _]|[[-> _]|[[-> _]|[-> _]]]]]]; lia).
        unfold reading_ok, r. cbn [r_type r_format r_index r_raw].
        rewrite !andb_true_iff, bool_decide_eq_true, !Z.leb_le, !Z.ltb_lt.
        rewrite length_take, Nat.min_l by lia. repeat split; (lia || assumption). }
      rewrite Hwire.
      destruct (IH (drop len body'))
        as [(rs & rest & Hlen & Hrs & ->)|(rs & tail & msg & Hlen & Hrs & -> & Hstop)].
      * left. exists (r :: rs), rest. repeat split.
        -- simpl. lia.
        -- simpl. now rewrite Hok, Hrs.
        -- now rewrite wire_readings_cons, <- app_assoc.
      * right. exists (r :: rs), tail, msg. repeat split.
        -- simpl. lia.
        -- simpl. now rewrite Hok, Hrs.
        -- now rewrite wire_readings_cons, <- app_assoc.
        -- exact Hstop.
Qed.

(** Any input is a run of well-formed frames, followed by fewer than
    three bytes or by a block that cannot be finished. *)
Lemma frames_split (k : nat) : forall bytes : list byte,
  (length bytes <= k)%nat ->
  exists fs tail,
    forallb frame_ok fs = true /\ bytes = wire fs ++ tail
    /\ ((length tail < 3)%nat \/ exists msg, broken_block tail msg).
Proof.
  induction k as [|k IH]; intros bytes Hk.
  - exists [], bytes. repeat split. left. lia.
  - destruct bytes as [|hi [|lo [|cnt body]]];
      try (eexists [], _; repeat split; left; simpl; lia).
    destruct (readings_split (Z.to_nat (byte_val cnt)) body)
      as [(rs & rest & Hlen & Hrs & ->)|(rs & tail & msg & Hlen & Hrs & -> & Hstop)].
    + pose proof (byte_val_range hi). pose proof (byte_val_range lo).
      pose proof (byte_val_range cnt).
      set (f := {| f_id := byte_val hi * 256 + byte_val lo;
                   f_readings := rs |}).
      assert (Hwire : hi :: lo :: cnt :: wire_readings rs = wire_frame f).
      { unfold wire_frame, f. cbn [f_id f_readings].
        replace ((byte_val hi * 256 + byte_val lo) / 256)%Z with (byte_val hi)
          by (apply Z.div_unique with (byte_val lo); lia).
        replace ((byte_val hi * 256 + byte_val lo) mod 256)%Z with (byte_val lo)
          by (apply Z.mod_unique with (byte_val hi); lia).
        rewrite Hlen, Z2Nat.id by lia. now rewrite !byte_of_Z_val. }
      assert (Hok : frame_ok f = true).
      { unfold frame_ok, f. cbn [f_id f_readings].
        rewrite !andb_true_iff, Z.leb_le, Z.ltb_lt, Nat.ltb_lt.
        repeat split; (lia || assumption). }
      destruct (IH rest) as (fs & tail & Hfs & -> & Htail).
      { simpl in Hk. rewrite length_app in Hk. lia. }
      exists (f :: fs), tail. repeat split.
      * simpl. now rewrite Hok, Hfs.
      * rewrite wire_cons, <- Hwire, <- !app_assoc. reflexivity.
      * exact Htail.
    + exists [], (hi :: lo :: cnt :: wire_readings rs ++ tail).
      repeat split. right. exists msg. now constructor.
Qed.

(** What the decoder returns, for every input: the frames at the front,
    and for the tail nothing, the warning, or the error. *)
Lemma decodeUplink_classify (bytes : list byte) :
  exists fs tail,
    forallb frame_ok fs = true /\ bytes = wire fs ++ tail
    /\ ((tail = []
         /\ decodeUplink bytes
            = Normal {| slaves := map decoded_frame fs;
                        warnings := []; errors := [] |})
        \/ ((1 <= length tail <= 2)%nat
            /\ decodeUplink bytes
               = Normal {| slaves := map decoded_frame fs;
                           warnings := ["Extra bytes at end of payload"%string];
                           errors := [] |})
        \/ (exists msg,
              broken_block tail msg
              /\ decodeUplink bytes
                 = Normal {| slaves := map decoded_frame fs;
                             warnings := []; errors := [msg] |})).
Proof.
  destruct (frames_split (length bytes) bytes (le_n _))
    as (fs & tail & Hfs & -> & Htail).
  exists fs, tail. split; [exact Hfs|]. split; [reflexivity|].
  rewrite decodeUplink_frames by exact Hfs.
  destruct Htail as [Hshort|[msg Hbroken]].
  - rewrite decodeUplink_short by exact Hshort.
    unfold map_completion, prepend_slaves. cbn [bind slaves warnings errors].
    rewrite app_nil_r. destruct tail as [|a tail].
    + left. split; reflexivity.
    + right; left. simpl in *. split; [lia|reflexivity].
  - right; right. exists msg. split; [exact Hbroken|].
    rewrite (decodeUplink_broken _ _ Hbroken).
    unfold map_completion, prepend_slaves. cbn [bind slaves warnings errors].
    now rewrite app_nil_r.
Qed.

(** ** Bytes appended behind a run *)

Lemma read_app_l bytes extra pos :
  (pos < length bytes)%nat -> read (bytes ++ extra) pos = read bytes pos.
Proof. intros H. unfold read. now rewrite lookup_app_l. Qed.

Lemma slice_app_l bytes extra a len :
  (a + len <= length bytes)%nat ->
  slice (bytes ++ extra) a (a + len) = slice bytes a (a + len).
Proof.
  intros H. unfold slice. rewrite drop_app_le by lia.
  rewrite take_app_le; [reflexivity|]. rewrite length_drop. lia.
Qed.

(** A sensor loop that ran to its end does the same when bytes are added
    behind the input. *)
Lemma for_sensors_extend extra n bytes acc : forall pos ss a,
  for_sensors n bytes acc pos ss = Normal (Next a) ->
  for_sensors n (bytes ++ extra) acc pos ss = Normal (Next a).
Proof.
  induction n as [|n IH]; intros pos ss a Hrun; [exact Hrun|].
  rewrite for_sensors_S in Hrun |- *. revert Hrun.
  rewrite length_app. nat_cmp; try discriminate.
  rewrite !read_app_l by lia.
  destruct (read bytes pos) as [t|]; [|discriminate].
  destruct (read bytes (pos + 1)) as [hdr|]; [|discriminate].
  cbn [bind].
  destruct (FORMAT_LEN (Z.shiftr hdr 5)) as [[|len]|]; try discriminate.
  nat_cmp; try discriminate.
  rewrite slice_app_l by lia.
  destruct (decodeValue _ _) as [v|]; [|discriminate].
  cbn [bind]. apply IH.
Qed.

(** A [return] from inside the sensor loop always carries a new error. *)
Lemma for_sensors_return n bytes acc : forall pos ss out,
  for_sensors n bytes acc pos ss = Normal (Return out) ->
  exists e, out = push_error acc e.
Proof.
  induction n as [|n IH]; intros pos ss out Hrun; [discriminate|].
  rewrite for_sensors_S in Hrun. revert Hrun.
  nat_cmp; [intros [= <-]; eexists; reflexivity|].
  destruct (read bytes pos) as [t|]; [|discriminate].
  destruct (read bytes (pos + 1)) as [hdr|]; [|discriminate].
  cbn [bind].
  destruct (FORMAT_LEN (Z.shiftr hdr 5)) as [[|len]|];
    try (intros [= <-]; eexists; reflexivity).
  nat_cmp; [intros [= <-]; eexists; reflexivity|].
  destruct (decodeValue _ _) as [v|]; [|discriminate].
  cbn [bind]. apply IH.
Qed.

(** A run that ended without a warning and without an error used up its
    input exactly; with one or two bytes added behind, the same run ends
    on the warning. *)
Lemma while_slaves_extend extra fuel bytes : forall acc pos out,
  (1 <= length extra <= 2)%nat ->
  (pos <= length bytes)%nat ->
  while_slaves fuel bytes acc pos = Normal out ->
  warnings out = warnings acc -> errors out = errors acc ->
  while_slaves fuel (bytes ++ extra) acc pos
  = Normal (push_warning out "Extra bytes at end of payload").
Proof.
  induction fuel as [|fuel IH]; intros acc pos out Hextra Hpos Hrun Hw He.
  - destruct (Nat.le_gt_cases (pos + 3) (length bytes)) as [Hle|Hgt].
    + simpl in Hrun. revert Hrun. nat_cmp. discriminate.
    + rewrite while_slaves_end in Hrun by lia. revert Hrun.
      nat_cmp; intros [= <-].
      * rewrite while_slaves_end by (rewrite length_app; lia).
        rewrite length_app. nat_cmp. reflexivity.
      * exfalso. simpl in Hw. symmetry in Hw.
        apply (f_equal (@length string)) in Hw.
        rewrite length_app in Hw. simpl in Hw. lia.
  - destruct (Nat.le_gt_cases (pos + 3) (length bytes)) as [Hle|Hgt].
    + rewrite while_slaves_S in Hrun by lia.
      rewrite while_slaves_S by (rewrite length_app; lia).
      rewrite !read_app_l by lia.
      destruct (read bytes pos) as [hi|]; [|discriminate].
      destruct (read bytes (pos + 1)) as [lo|]; [|discriminate].
      destruct (read bytes (pos + 2)) as [cnt|]; [|discriminate].
      cbn [bind] in Hrun |- *.
      destruct (for_sensors _ bytes acc _ _) as [[[pos' ss]|o]|] eqn:E;
        [| |discriminate]; cbn [bind] in Hrun.
      * rewrite (for_sensors_extend _ _ _ _ _ _ _ E). cbn [bind].
        apply for_sensors_progress in E; [|lia].
        apply IH; (assumption || lia).
      * exfalso. injection Hrun as <-.
        apply for_sensors_return in E as [e ->]. simpl in He.
        symmetry in He. apply (f_equal (@length string)) in He.
        rewrite length_app in He. simpl in He. lia.
    + rewrite while_slaves_end in Hrun by lia. revert Hrun.
      nat_cmp; intros [= <-].
      * rewrite while_slaves_end by (rewrite length_app; lia).
        rewrite length_app. nat_cmp. reflexivity.
      * exfalso. simpl in Hw. symmetry in Hw.
        apply (f_equal (@length string)) in Hw.
        rewrite length_app in Hw. simpl in Hw. lia.
Qed.

(** ** 16-bit encodings *)

Lemma le_value_uint16 (n : Z) :
  (0 <= n < 65536)%Z -> le_value (uint16_le n) = n.
Proof.
  intros Hn. unfold uint16_le. cbn [le_value].
  rewrite !byte_of_Z_mod.
  assert (0 <= n / 256 < 256)%Z.
  { split; [apply Z.div_pos; lia | apply Z.div_lt_upper_bound; lia]. }
  rewrite (Z.mod_small (n / 256)) by lia.
  pose proof (Z.div_mod n 256). lia.
Qed.

Lemma signed_16 (u : Z) :
  (0 <= u < 65536)%Z ->
  signed 16 u = if (u <? 32768)%Z then u else (u - 65536)%Z.
Proof.
  intros Hu. unfold signed. change (16 - 1)%Z with 15%Z.
  change (Z.shiftl 1 16) with 65536%Z.
  destruct (Z.ltb_spec u 32768) as [Hlt|Hge].
  - replace (Z.testbit u 15) with false; [reflexivity|].
    symmetry. rewrite Z.testbit_false by lia.
    change (2 ^ 15)%Z with 32768%Z. rewrite Z.div_small by lia. reflexivity.
  - replace (Z.testbit u 15) with true; [reflexivity|].
    symmetry. rewrite Z.testbit_true by lia.
    change (2 ^ 15)%Z with 32768%Z.
    replace (u / 32768)%Z with 1%Z; [reflexivity|].
    apply Z.div_unique with (u - 32768)%Z; lia.
Qed.

Lemma signed_int16 (n : Z) :
  (-32768 <= n < 32768)%Z -> signed 16 (n mod 65536) = n.
Proof.
  intros Hn. pose proof (Z.mod_pos_bound n 65536 ltac:(lia)) as Hm.
  rewrite signed_16 by lia.
  destruct (Z.le_gt_cases 0 n) as [Hpos|Hneg].
  - rewrite Z.mod_small by lia.
    destruct (Z.ltb_spec n 32768); lia.
  - replace (n mod 65536)%Z with (n + 65536)%Z.
    + destruct (Z.ltb_spec (n + 65536) 32768); lia.
    + apply Z.mod_unique with (-1)%Z; lia.
Qed.


(** ** The decoder against the wire format *)

Ltac pow2_lia :=
  repeat match goal with
  | |- context [(2 ^ ?k)%Z] =>
    let v := eval vm_compute in (2 ^ k)%Z in change (2 ^ k)%Z with v
  end; lia.

Example unknown_format_6 : unknown_format 6 = "Unknown format 6"%string.
Proof. reflexivity. Qed.

Example decode_two_slaves :
  decodeUplink [x01; x02; x02;  x01; x00; x07;  x02; x83; xd2; x04;
                x00; x03; x01;  x03; xa5; x19; x00]
  = Normal
      {| slaves :=
           [ {| id := 258;
                sensors := [ {| type := 1; index := 0; format := 0;
                                value := Num 7 |};
                             {| type := 2; index := 3; format := 4;
                                value := Num (1234 / 100) |} ] |};
             {| id := 3;
                sensors := [ {| type := 3; index := 5; format := 5;
                                value := Num 2.5 |} ] |} ];
         warnings := []; errors := [] |}.
Proof. vm_compute. reflexivity. Qed.

(** The same two bytes as a slave id and as a 16-bit value. *)
Example id_big_endian_value_little_endian :
  decodeUplink [x01; x02; x01;  x01; x20; x01; x02]
  = Normal
      {| slaves := [ {| id := 258;
                        sensors := [ {| type := 1; index := 0; format := 1;
                                        value := Num 513 |} ] |} ];
         warnings := []; errors := [] |}.
Proof. vm_compute. reflexivity. Qed.

Example decode_float32 :
  decodeUplink [x00; x07; x01;  x04; x40; x00; x00; x20; xc1]
  = Normal
      {| slaves := [ {| id := 7;
                        sensors := [ {| type := 4; index := 0; format := 2;
                                        value := Num (-10) |} ] |} ];
         warnings := []; errors := [] |}.
Proof. vm_compute. reflexivity. Qed.

(** C1. Whatever the input, the decoder reads the slave blocks at its
    front by the layout of the wire format: two bytes of slave id, most
    significant first; one byte of sensor count; per sensor one type byte
    and one header byte, the format being [header >> 5] and the index
    [header & 0x1F]; then the value bytes, read least significant byte
    first.  First, however the input splits into well-formed frames laid
    out that way and bytes behind them, the decoder returns those frames,
    their values decoded by the format table, followed by what the bytes
    behind decode to.  Second, the input does split so: into frames, which
    are the slaves returned, and a tail of fewer than three bytes or a
    block that cannot be finished, whose error is the one returned. *)
Theorem decodeUplink_wire_layout (bytes : list byte) :
  (forall fs rest,
      forallb frame_ok fs = true -> bytes = wire fs ++ rest ->
      decodeUplink bytes
      = map_completion (prepend_slaves (map decoded_frame fs))
          (decodeUplink rest))
  /\ (exists fs tail out,
        forallb frame_ok fs = true /\ bytes = wire fs ++ tail
        /\ decodeUplink bytes = Normal out
        /\ slaves out = map decoded_frame fs
        /\ ((length tail < 3)%nat /\ errors out = []
            \/ exists msg, broken_block tail msg /\ errors out = [msg])).
Proof.
  split.
  - intros fs rest Hok ->. now apply decodeUplink_frames.
  - destruct (decodeUplink_classify bytes)
      as (fs & tail & Hfs & Hbytes & Hout).
    exists fs, tail.
    destruct Hout as [[-> Hrun]|[[Hlen Hrun]|(msg & Hbroken & Hrun)]];
      eexists; (split; [exact Hfs|]); (split; [exact Hbytes|]);
      (split; [exact Hrun|]); (split; [reflexivity|]).
    + left. split; [simpl; lia|reflexivity].
    + left. split; [lia|reflexivity].
    + right. exists msg. split; [exact Hbroken|reflexivity].
Qed.

Lemma decodeUplink_wire_layout_witness :
  let fs := [ Frame 258 [ Reading 1 0 0 [x07]; Reading 2 4 3 [xd2; x04] ];
              Frame 3 [ Reading 3 5 5 [x19; x00] ] ] in
  let bytes := [x01; x02; x02;  x01; x00; x07;  x02; x83; xd2; x04;
                x00; x03; x01;  x03; xa5; x19; x00;  x0a] in
  forallb frame_ok fs = true
  /\ bytes = wire fs ++ [x0a]
  /\ decodeUplink bytes
     = map_completion (prepend_slaves (map decoded_frame fs))
         (decodeUplink [x0a]).
Proof.
  split; [reflexivity|]. split; [reflexivity|].
  apply (proj1 (decodeUplink_wire_layout
                  [x01; x02; x02;  x01; x00; x07;  x02; x83; xd2; x04;
                   x00; x03; x01;  x03; xa5; x19; x00;  x0a])
           [ Frame 258 [ Reading 1 0 0 [x07]; Reading 2 4 3 [xd2; x04] ];
             Frame 3 [ Reading 3 5 5 [x19; x00] ] ] [x0a]);
    reflexivity.
Defined.

(** C2, as the claim has it: [slaves] is everything parsed before the
    point of failure.  It is not.  In the input below the second block
    announces two sensors; the first of them, type 2, index 1, format 0,
    value 5, is decoded by the loop over the sensors (one pass of it from
    position 10 ends at position 13 with that sensor collected); the second
    has the format code 6, and the decoder returns with the error, and with
    the first block alone: no slave with id 2 and no sensor of type 2 is in
    what it returns. *)
Lemma interrupted_block_readings_dropped :
  for_sensors 1
    [x00; x01; x01;  x01; x20; x19; x00;
     x00; x02; x02;  x02; x01; x05;  x03; xc0; x01; x02]
    {| slaves := [ {| id := 1;
                      sensors := [ {| type := 1; index := 0; format := 1;
                                      value := Num 25 |} ] |} ];
       warnings := []; errors := [] |} 10 []
  = Normal (Next (13%nat, [ {| type := 2; index := 1; format := 0;
                               value := Num 5 |} ]))
  /\ decodeUplink [x00; x01; x01;  x01; x20; x19; x00;
                   x00; x02; x02;  x02; x01; x05;  x03; xc0; x01; x02]
     = Normal {| slaves := [ {| id := 1;
                                sensors := [ {| type := 1; index := 0;
                                                format := 1;
                                                value := Num 25 |} ] |} ];
                 warnings := []; errors := ["Unknown format 6"%string] |}
  /\ ~ (exists out s m,
          decodeUplink [x00; x01; x01;  x01; x20; x19; x00;
                        x00; x02; x02;  x02; x01; x05;  x03; xc0; x01; x02]
          = Normal out
          /\ In s (slaves out) /\ In m (sensors s)
          /\ (id s = 2 \/ type m = 2)%Z).
Proof.
  split; [vm_compute; reflexivity|]. split; [vm_compute; reflexivity|].
  intros (out & s & m & Hrun & Hs & Hm & Hid).
  vm_compute in Hrun. injection Hrun as <-.
  cbn [slaves] in Hs. destruct Hs as [<-|[]].
  cbn [sensors id] in Hm, Hid. destruct Hm as [<-|[]].
  cbn [type] in Hid. destruct Hid; discriminate.
Qed.

(** C2, amended: on an input where the decoder meets, at a sensor of some
    block, an unrecognised format code, or fewer than two bytes for the
    sensor header, or fewer value bytes than the format needs, it completes
    normally (no fault), with exactly that one error, no warning, and as
    [slaves] the blocks completely decoded before the one it stopped in;
    nothing behind the point of failure is looked at.  The readings [rs]
    already decoded in the interrupted block are not part of [slaves]: a
    block is collected when its last sensor is. *)
Theorem decodeUplink_fail_fast (fs : list frame) (hi lo cnt : byte)
    (rs : list reading) (tail : list byte) (msg : string) :
  forallb frame_ok fs = true ->
  forallb reading_ok rs = true ->
  (length rs < Z.to_nat (byte_val cnt))%nat ->
  stops_with tail msg ->
  decodeUplink (wire fs ++ hi :: lo :: cnt :: wire_readings rs ++ tail)
  = Normal {| slaves := map decoded_frame fs;
              warnings := []; errors := [msg] |}.
Proof.
  intros Hfs Hrs Hcnt Hstop. rewrite decodeUplink_frames by exact Hfs.
  rewrite (decodeUplink_broken _ msg) by now constructor.
  unfold map_completion, prepend_slaves. cbn [bind slaves warnings errors].
  now rewrite app_nil_r.
Qed.

Lemma decodeUplink_fail_fast_witness :
  decodeUplink [x00; x01; x01;  x01; x20; x19; x00;
                x00; x02; x02;  x02; x01; x05;  x03; xc0; x01; x02]
  = Normal {| slaves := [ {| id := 1;
                             sensors := [ {| type := 1; index := 0; format := 1;
                                             value := Num 25 |} ] |} ];
              warnings := []; errors := ["Unknown format 6"%string] |}.
Proof.
  apply (decodeUplink_fail_fast
           [ Frame 1 [ Reading 1 1 0 [x19; x00] ] ] x00 x02 x02
           [ Reading 2 0 1 [x05] ] [x03; xc0; x01; x02]).
  - reflexivity.
  - reflexivity.
  - vm_compute. lia.
  - apply stops_format. reflexivity.
Defined.

(** C5. The value of a sensor is decoded by the format table: code 0 the
    unsigned byte, code 1 the unsigned 16-bit little-endian integer, code 2
    the binary32 and code 3 the binary64 float whose bits are the
    little-endian value of the bytes; and, round trip, code 4 decodes the
    two's-complement little-endian encoding of a signed 16-bit [n] to
    [n / 100], code 5 the little-endian encoding of an unsigned 16-bit [u]
    to [u / 10], the division being that of Numbers. *)
Theorem decodeValue_format_table (b0 b1 b2 b3 b4 b5 b6 b7 : byte) (n u : Z) :
  (-32768 <= n < 32768)%Z ->
  (0 <= u < 65536)%Z ->
  decodeValue 0 [b0] = Normal (Num (number_of_Z (byte_val b0)))
  /\ decodeValue 1 [b0; b1]
     = Normal (Num (number_of_Z (byte_val b0 + 256 * byte_val b1)))
  /\ decodeValue 2 [b0; b1; b2; b3]
     = Normal (Num (float32_of_bits
         (byte_val b0 + 2 ^ 8 * byte_val b1 + 2 ^ 16 * byte_val b2
          + 2 ^ 24 * byte_val b3)))
  /\ decodeValue 3 [b0; b1; b2; b3; b4; b5; b6; b7]
     = Normal (Num (float64_of_bits
         (byte_val b0 + 2 ^ 8 * byte_val b1 + 2 ^ 16 * byte_val b2
          + 2 ^ 24 * byte_val b3 + 2 ^ 32 * byte_val b4
          + 2 ^ 40 * byte_val b5 + 2 ^ 48 * byte_val b6
          + 2 ^ 56 * byte_val b7)))
  /\ decodeValue 4 (int16_le n)
     = Normal (Num (number_of_Z n / number_of_Z 100)%float)
  /\ decodeValue 5 (uint16_le u)
     = Normal (Num (number_of_Z u / number_of_Z 10)%float).
Proof.
  intros Hn Hu.
  pose proof (Z.mod_pos_bound n 65536 ltac:(lia)) as Hm.
  repeat split;
    (rewrite decodeValue_format_value by reflexivity);
    unfold format_value.
  - cbn [le_value]. do 3 f_equal. lia.
  - cbn [le_value]. do 3 f_equal. lia.
  - cbn [le_value]. do 3 f_equal. pow2_lia.
  - cbn [le_value]. do 3 f_equal. pow2_lia.
  - unfold int16_le. rewrite le_value_uint16, signed_int16 by lia.
    reflexivity.
  - rewrite le_value_uint16 by lia. reflexivity.
Qed.

Lemma decodeValue_format_table_witness :
  decodeValue 2 [x00; x00; x20; xc1] = Normal (Num (-10))
  /\ decodeValue 4 (int16_le (-1234)) = Normal (Num (-1234 / 100))
  /\ decodeValue 5 (uint16_le 25) = Normal (Num 2.5).
Proof.
  destruct (decodeValue_format_table x00 x00 x20 xc1 x00 x00 x00 x00
              (-1234) 25 ltac:(lia) ltac:(lia))
    as (_ & _ & H2 & _ & H4 & H5).
  split; [exact H2|]. split; [exact H4|exact H5].
Defined.

(** C7. When an input decodes completely, with no warning and no error,
    the same input followed by one or two more bytes decodes to the same
    slaves, no error, and the warning about extra bytes. *)
Theorem decodeUplink_extra_bytes (bytes extra : list byte) (ss : list slave) :
  decodeUplink bytes
  = Normal {| slaves := ss; warnings := []; errors := [] |} ->
  (1 <= length extra <= 2)%nat ->
  decodeUplink (bytes ++ extra)
  = Normal {| slaves := ss;
              warnings := ["Extra bytes at end of payload"%string];
              errors := [] |}.
Proof.
  intros Hrun Hextra. unfold decodeUplink in *.
  rewrite (while_slaves_fuel _ (length (bytes ++ extra))) in Hrun
    by (rewrite ?length_app; lia).
  apply (while_slaves_extend extra) in Hrun;
    [exact Hrun|exact Hextra|lia|reflexivity|reflexivity].
Qed.

Lemma decodeUplink_extra_bytes_witness :
  decodeUplink ([x00; x01; x01;  x01; x20; x19; x00] ++ [xff; xfe])
  = Normal {| slaves := [ {| id := 1;
                             sensors := [ {| type := 1; index := 0; format := 1;
                                             value := Num 25 |} ] |} ];
              warnings := ["Extra bytes at end of payload"%string];
              errors := [] |}.
Proof.
  apply decodeUplink_extra_bytes.
  - vm_compute. reflexivity.
  - simpl. lia.
Defined.

(** C9, as the claim has it: on the six bytes the decoder does not return
    a slave.  The header announces a two-byte value and one byte is left,
    so the decoder reports a truncated value and no slave at all. *)
Lemma six_bytes_truncated :
  decodeUplink [x00; x01; x01; x01; x20; x19]
  = Normal {| slaves := []; warnings := [];
              errors := ["Truncated sensor value"%string] |}
  /\ ~ (exists out v,
         decodeUplink [x00; x01; x01; x01; x20; x19] = Normal out
         /\ slaves out = [ {| id := 1;
                              sensors := [ {| type := 1; index := 0;
                                              format := 1; value := v |} ] |} ]).
Proof.
  split; [vm_compute; reflexivity|].
  intros (out & v & Hrun & Hslaves).
  vm_compute in Hrun. injection Hrun as <-. discriminate Hslaves.
Qed.

(** C9, amended: the six bytes alone give no slave and the error of a
    truncated value; with the second byte [b] of the value present, the
    decoder returns one slave, id 1, with one sensor of type 1, format 1,
    index 0, whose value is the little-endian 16-bit integer of the two
    bytes [0x19, b]. *)
Theorem seven_bytes_one_sensor (b : byte) :
  decodeUplink [x00; x01; x01; x01; x20; x19]
  = Normal {| slaves := []; warnings := [];
              errors := ["Truncated sensor value"%string] |}
  /\ decodeUplink [x00; x01; x01; x01; x20; x19; b]
     = Normal {| slaves := [ {| id := 1;
                                sensors := [ {| type := 1; index := 0;
                                                format := 1;
                                                value := Num (number_of_Z
                                                  (25 + 256 * byte_val b)) |} ] |} ];
                 warnings := []; errors := [] |}.
Proof.
  split; [vm_compute; reflexivity|].
  change [x00; x01; x01; x01; x20; x19; b]
    with (wire [ Frame 1 [ Reading 1 1 0 [x19; b] ] ] ++ []).
  rewrite decodeUplink_frames by reflexivity.
  change (decodeUplink [])
    with (Normal {| slaves := []; warnings := []; errors := [] |}).
  unfold map_completion, prepend_slaves, decoded_frame, decoded_reading,
    format_value.
  cbn [bind map app f_id f_readings r_type r_index r_format r_raw le_value
       slaves warnings errors].
  do 8 f_equal. change (byte_val x19) with 25%Z. lia.
Qed.

End FormatterFacts.

(* ===================================================================== *)
(** * Properties of the ingestion service                                 *)
(* ===================================================================== *)

Module IngestorFacts.
Import Ingestor.

Example ToUpper_eui :
  ToUpperASCII "70b3d57ed0069153" = "70B3D57ED0069153"%string.
Proof. reflexivity. Qed.

Lemma nonempty_spec (s : string) : nonempty s = true <-> s <> EmptyString.
Proof. destruct s; simpl; split; (congruence || discriminate || auto). Qed.

(** The set of the Go map is the interval from 1 to 15. *)
Lemma validSensorTypes_spec (t : Z) :
  t ∈ validSensorTypes <-> (1 <= t <= 15)%Z.
Proof.
  unfold validSensorTypes.
  rewrite !elem_of_union, !elem_of_singleton. lia.
Qed.

Lemma valid_type_spec (s : Slave) (m : Sensor) :
  bool_decide (Type_ m ∈ validSensorTypes) = valid_type (s, m).
Proof.
  unfold valid_type. simpl.
  destruct (bool_decide_reflect (Type_ m ∈ validSensorTypes)) as [H|H];
    rewrite validSensorTypes_spec in H; symmetry.
  - apply andb_true_iff. rewrite !Z.leb_le. lia.
  - apply andb_false_iff. rewrite !Z.leb_gt. lia.
Qed.

Section Handler.

Variable Unmarshal : list byte -> option DirectUp.
Variable ToUpper : string -> string.
Variable DB : Type.
Variable Exec : DB -> statement -> DB * option string.
Variable debug : bool.
Variable now : Time.

Abbreviation World := (World DB).
Abbreviation exec := (exec DB Exec).
Abbreviation debugf := (debugf DB debug).
Abbreviation parseUplink := (parseUplink Unmarshal ToUpper DB debug now).
Abbreviation upsert_station := (upsert_station DB Exec).
Abbreviation upsert_gateway := (upsert_gateway DB Exec).
Abbreviation insert_reading := (insert_reading DB Exec debug).
Abbreviation insert_sm := (insert_sm DB Exec debug).
Abbreviation insert_measurements := (insert_measurements DB Exec debug).
Abbreviation ingest := (ingest DB Exec debug).
Abbreviation handleMessage := (handleMessage Unmarshal ToUpper DB Exec debug now).

(** *** Logging touches the log only *)

Lemma logf_calls l (w : World) : calls (logf DB l w) = calls w.
Proof. reflexivity. Qed.

Lemma logf_db l (w : World) : db (logf DB l w) = db w.
Proof. reflexivity. Qed.

Lemma debugf_calls l (w : World) : calls (debugf l w) = calls w.
Proof. unfold Ingestor.debugf. destruct debug; reflexivity. Qed.

Lemma debugf_db l (w : World) : db (debugf l w) = db w.
Proof. unfold Ingestor.debugf. destruct debug; reflexivity. Qed.

Lemma exec_calls q (w : World) :
  calls (exec q w).1 = calls w ++ [(q, (exec q w).2)].
Proof. unfold Ingestor.exec. destruct (Exec (db w) q); reflexivity. Qed.

Lemma exec_logs q (w : World) : logs (exec q w).1 = logs w.
Proof. unfold Ingestor.exec. destruct (Exec (db w) q); reflexivity. Qed.

(** *** parseUplink *)

Lemma parseUplink_calls b (w : World) :
  calls (parseUplink b w).1 = calls w /\ db (parseUplink b w).1 = db w.
Proof.
  unfold Ingestor.parseUplink.
  destruct (Unmarshal b) as [du|]; [destruct (nonempty (DevEUI du))|];
    simpl; rewrite debugf_calls, debugf_db; auto.
Qed.

Lemma parseUplink_result b (w : World) :
  (parseUplink b w).2 =
  match Unmarshal b with
  | Some du =>
    if nonempty (DevEUI du) then
      inl {| When := UTC (resolved_time du (UTC now));
             StationEUI := ToUpper (DevEUI du);
             StationDevID := DeviceID du;
             AppID := ApplicationID du;
             Msg := UplinkMessage du |}
    else inr unknown_shape
  | None => inr unknown_shape
  end.
Proof.
  unfold Ingestor.parseUplink, resolved_time.
  destruct (Unmarshal b) as [du|]; [|reflexivity].
  destruct (nonempty (DevEUI du)); [|reflexivity]. simpl.
  destruct (IsZero (MsgReceivedAt (UplinkMessage du))) eqn:E; simpl.
  - destruct (IsZero (ReceivedAt du)); reflexivity.
  - rewrite E. reflexivity.
Qed.

(** *** The measurement loop *)

Lemma insert_measurements_readings p (w : World) :
  insert_measurements p w = fold_left (insert_sm p) (readings p) (w, O).
Proof.
  unfold Ingestor.insert_measurements, readings.
  generalize (w, O). induction (Slaves (Payload (Msg p))) as [|s ss IH];
    intros st; [reflexivity|].
  cbn [fold_left flat_map]. rewrite fold_left_app, <- IH. f_equal.
  generalize st. induction (Sensors s) as [|m ms IHm]; intros st';
    [reflexivity|]. cbn [fold_left map]. apply IHm.
Qed.

Lemma measurement_rows_app l l' :
  measurement_rows (l ++ l') = measurement_rows l ++ measurement_rows l'.
Proof. unfold measurement_rows. apply flat_map_app. Qed.

Lemma inserts_done_app l l' :
  inserts_done (l ++ l') = (inserts_done l + inserts_done l')%nat.
Proof. unfold inserts_done. now rewrite List.filter_app, length_app. Qed.

(** One reading: an insert is sent when, and only when, the type is
    valid; the counter goes up when, and only when, that insert came
    back without an error. *)
Lemma insert_sm_step p (st : World * nat) sm :
  measurement_rows (calls (insert_sm p st sm).1)
  = measurement_rows (calls st.1)
      ++ (if valid_type sm then [row_sm p sm] else [])
  /\ ((insert_sm p st sm).2 + inserts_done (calls st.1)
      = st.2 + inserts_done (calls (insert_sm p st sm).1))%nat.
Proof.
  destruct st as [w count], sm as [s m].
  unfold Ingestor.insert_sm, Ingestor.insert_reading. cbn [fst snd].
  rewrite (valid_type_spec s m). destruct (valid_type (s, m)).
  - pose proof (exec_calls (insertMeasurementSQL (row_of p s m)) w) as Hc.
    destruct (exec _ w) as [w' [e|]]; cbn [fst snd] in *;
      rewrite ?logf_calls, Hc, measurement_rows_app, inserts_done_app;
      split; try reflexivity; unfold inserts_done; simpl; lia.
  - cbn [fst snd]. rewrite debugf_calls, app_nil_r. split; [reflexivity|lia].
Qed.

Lemma insert_readings_run p (l : list (Slave * Sensor)) : forall st : World * nat,
  measurement_rows (calls (fold_left (insert_sm p) l st).1)
  = measurement_rows (calls st.1) ++ map (row_sm p) (List.filter valid_type l)
  /\ ((fold_left (insert_sm p) l st).2 + inserts_done (calls st.1)
      = st.2 + inserts_done (calls (fold_left (insert_sm p) l st).1))%nat.
Proof.
  induction l as [|sm l IH]; intros st.
  - simpl. rewrite app_nil_r. split; [reflexivity|lia].
  - cbn [fold_left List.filter].
    destruct (IH (insert_sm p st sm)) as [IHr IHc].
    destruct (insert_sm_step p st sm) as [Hr Hc].
    rewrite IHr, Hr, <- app_assoc. split; [|lia].
    destruct (valid_type sm); reflexivity.
Qed.

(** *** The dimension upserts send no measurement *)

Lemma upsert_station_calls p (w : World) :
  measurement_rows (calls (upsert_station p w)) = measurement_rows (calls w)
  /\ inserts_done (calls (upsert_station p w)) = inserts_done (calls w).
Proof.
  unfold Ingestor.upsert_station.
  destruct (nonempty (AppID p) && nonempty (StationEUI p)); [|auto].
  pose proof (exec_calls (upsertStationSQL (StationEUI p) (AppID p)
                            (nullIfEmpty (StationDevID p))) w) as Hc.
  destruct (exec _ w) as [w' [e|]]; cbn [fst snd] in *;
    rewrite ?logf_calls, Hc, measurement_rows_app, inserts_done_app;
    simpl; rewrite app_nil_r; split; (reflexivity || (unfold inserts_done; simpl; lia)).
Qed.

Lemma upsert_gateway_calls p (w : World) :
  measurement_rows (calls (upsert_gateway p w)) = measurement_rows (calls w)
  /\ inserts_done (calls (upsert_gateway p w)) = inserts_done (calls w).
Proof.
  unfold Ingestor.upsert_gateway.
  destruct (RxMeta (Msg p)) as [|rm rms]; [auto|].
  destruct (nonempty (GatewayID rm)); [|auto].
  pose proof (exec_calls (upsertGatewaySQL (GatewayID rm) (EUI rm)) w) as Hc.
  destruct (exec _ w) as [w' [e|]]; cbn [fst snd] in *;
    rewrite ?logf_calls, Hc, measurement_rows_app, inserts_done_app;
    simpl; rewrite app_nil_r; split; (reflexivity || (unfold inserts_done; simpl; lia)).
Qed.

(** *** ingest *)

Lemma ingest_run p (w : World) :
  exists count : nat,
    last (logs (ingest p w)) = Some (Ingested count (StationEUI p))
    /\ measurement_rows (calls (ingest p w))
       = measurement_rows (calls w)
           ++ map (row_sm p) (List.filter valid_type (readings p))
    /\ (count + inserts_done (calls w)
        = inserts_done (calls (ingest p w)))%nat.
Proof.
  unfold Ingestor.ingest. rewrite insert_measurements_readings.
  destruct (insert_readings_run p (readings p)
              (upsert_gateway p (upsert_station p w), O)) as [Hr Hc].
  destruct (fold_left _ _ _) as [w' count]. cbn [fst snd] in *.
  destruct (upsert_station_calls p w) as [Hs1 Hs2].
  destruct (upsert_gateway_calls p (upsert_station p w)) as [Hg1 Hg2].
  exists count. rewrite logf_calls. split; [|split].
  - unfold logf. simpl. apply last_snoc.
  - rewrite Hr, Hg1, Hs1. reflexivity.
  - lia.
Qed.

Lemma handleMessage_accepted msg (w : World) p :
  (parseUplink (MsgPayload msg)
     (debugf (DebugTopic (Topic msg) (Qos msg) (Retained msg)) w)).2 = inl p ->
  handleMessage msg w
  = ingest p (parseUplink (MsgPayload msg)
                (debugf (DebugTopic (Topic msg) (Qos msg) (Retained msg)) w)).1.
Proof.
  intros H. unfold Ingestor.handleMessage.
  destruct (parseUplink _ _) as [w' r]. cbn [fst snd] in *. now subst r.
Qed.

Lemma handleMessage_rejected msg (w : World) e :
  (parseUplink (MsgPayload msg)
     (debugf (DebugTopic (Topic msg) (Qos msg) (Retained msg)) w)).2 = inr e ->
  calls (handleMessage msg w) = calls w /\ db (handleMessage msg w) = db w.
Proof.
  intros H. unfold Ingestor.handleMessage.
  pose proof (parseUplink_calls (MsgPayload msg)
    (debugf (DebugTopic (Topic msg) (Qos msg) (Retained msg)) w)) as [Hc Hd].
  destruct (parseUplink _ _) as [w' r]. cbn [fst snd] in *. subst r.
  rewrite logf_calls, logf_db, Hc, Hd, debugf_calls, debugf_db. auto.
Qed.

End Handler.

(** ** The store *)

Section Store.

Variable debug : bool.

Abbreviation World := (World Store).
Abbreviation insert_sm := (insert_sm Store store_exec debug).
Abbreviation ingest := (ingest Store store_exec debug).

Lemma same_key_refl row : same_key row row = true.
Proof.
  unfold same_key. now rewrite !Z.eqb_refl, String.eqb_refl.
Qed.

Lemma has_key_app row t t' :
  has_key row (t ++ t') = has_key row t || has_key row t'.
Proof. apply existsb_app. Qed.

Lemma has_key_last row t : has_key row (t ++ [row]) = true.
Proof.
  rewrite has_key_app. unfold has_key at 2. simpl.
  rewrite same_key_refl. now rewrite orb_true_r.
Qed.

(** A duplicate key: no error, nothing written. *)
Lemma store_conflict d row :
  row_fits row = true -> has_key row (measurements d) = true ->
  store_exec d (insertMeasurementSQL row) = (d, None).
Proof.
  intros Hfit Hkey. unfold store_exec, has_key in *.
  now rewrite Hfit, Hkey.
Qed.

(** One reading against the store. *)
Lemma store_insert_sm p (st : World * nat) sm :
  (insert_sm p st sm).2
  = (st.2 + (if persistable p sm then 1 else 0))%nat
  /\ measurements (db (insert_sm p st sm).1)
     = measurements (db st.1)
         ++ (if persistable p sm
                && negb (has_key (row_sm p sm) (measurements (db st.1)))
             then [row_sm p sm] else []).
Proof.
  destruct st as [w count], sm as [s m].
  unfold Ingestor.insert_sm, Ingestor.insert_reading, persistable.
  cbn [fst snd]. rewrite (valid_type_spec s m).
  destruct (valid_type (s, m)); cbn [andb].
  - unfold exec, store_exec, row_sm, has_key. cbn [fst snd].
    destruct (row_fits (row_of p s m)); cbn [negb andb].
    + destruct (existsb _ _); cbn [fst snd db negb measurements];
        rewrite ?app_nil_r; split; (reflexivity || lia).
    + cbn [fst snd db]. rewrite app_nil_r. split; [lia|reflexivity].
  - cbn [fst snd]. rewrite debugf_db, app_nil_r. split; [lia|reflexivity].
Qed.

Lemma store_insert_keeps p (st : World * nat) sm row :
  has_key row (measurements (db st.1)) = true ->
  has_key row (measurements (db (insert_sm p st sm).1)) = true.
Proof.
  intros H. destruct (store_insert_sm p st sm) as [_ ->].
  rewrite has_key_app, H. reflexivity.
Qed.

Lemma store_insert_adds p (st : World * nat) sm :
  persistable p sm = true ->
  has_key (row_sm p sm) (measurements (db (insert_sm p st sm).1)) = true.
Proof.
  intros H. destruct (store_insert_sm p st sm) as [_ ->]. rewrite H.
  destruct (has_key (row_sm p sm) (measurements (db st.1))) eqn:E;
    cbn [andb negb].
  - now rewrite app_nil_r.
  - apply has_key_last.
Qed.

(** The whole loop against the store: what it counts, what it leaves
    in the table, and that it writes nothing when all is there. *)
Lemma store_run_count p l : forall st : World * nat,
  (fold_left (insert_sm p) l st).2
  = (st.2 + length (List.filter (persistable p) l))%nat.
Proof.
  induction l as [|sm l IH]; intros st; cbn [fold_left List.filter].
  - simpl. lia.
  - rewrite IH. destruct (store_insert_sm p st sm) as [-> _].
    destruct (persistable p sm); simpl; lia.
Qed.

Lemma store_run_keeps p l row : forall st : World * nat,
  has_key row (measurements (db st.1)) = true ->
  has_key row (measurements (db (fold_left (insert_sm p) l st).1)) = true.
Proof.
  induction l as [|sm l IH]; intros st H; cbn [fold_left]; [exact H|].
  apply IH. now apply store_insert_keeps.
Qed.

Lemma store_run_adds p l sm : forall st : World * nat,
  In sm l -> persistable p sm = true ->
  has_key (row_sm p sm)
    (measurements (db (fold_left (insert_sm p) l st).1)) = true.
Proof.
  induction l as [|sm' l IH]; intros st Hin Hp; [destruct Hin|].
  cbn [fold_left]. destruct Hin as [->|Hin].
  - apply store_run_keeps. now apply store_insert_adds.
  - now apply IH.
Qed.

Lemma store_run_again p l : forall st : World * nat,
  (forall sm, In sm l -> persistable p sm = true ->
     has_key (row_sm p sm) (measurements (db st.1)) = true) ->
  measurements (db (fold_left (insert_sm p) l st).1)
  = measurements (db st.1).
Proof.
  induction l as [|sm l IH]; intros st Hall; cbn [fold_left]; [reflexivity|].
  assert (Hstep : measurements (db (insert_sm p st sm).1)
                  = measurements (db st.1)).
  { destruct (store_insert_sm p st sm) as [_ ->].
    destruct (persistable p sm) eqn:Hp; cbn [andb].
    - rewrite (Hall sm (or_introl eq_refl) Hp). cbn [negb].
      now rewrite app_nil_r.
    - now rewrite app_nil_r. }
  rewrite IH, Hstep; [reflexivity|].
  intros sm' Hin Hp. rewrite Hstep. apply Hall; [now right|exact Hp].
Qed.

Lemma store_upserts_measurements p (w : World) :
  measurements (db (upsert_gateway Store store_exec p
                      (upsert_station Store store_exec p w)))
  = measurements (db w).
Proof.
  unfold upsert_gateway, upsert_station, exec.
  destruct (nonempty (AppID p) && nonempty (StationEUI p));
    destruct (RxMeta (Msg p)) as [|rm rms]; try reflexivity;
    destruct (nonempty (GatewayID rm)); reflexivity.
Qed.

(** ingest against the store: the count reported, the table left. *)
Lemma store_ingest p (w : World) :
  last (logs (ingest p w))
  = Some (Ingested (length (List.filter (persistable p) (readings p)))
                   (StationEUI p))
  /\ (forall row, has_key row (measurements (db w)) = true ->
        has_key row (measurements (db (ingest p w))) = true)
  /\ (forall sm, In sm (readings p) -> persistable p sm = true ->
        has_key (row_sm p sm) (measurements (db (ingest p w))) = true)
  /\ ((forall sm, In sm (readings p) -> persistable p sm = true ->
         has_key (row_sm p sm) (measurements (db w)) = true) ->
      measurements (db (ingest p w)) = measurements (db w)).
Proof.
  unfold Ingestor.ingest.
  rewrite insert_measurements_readings.
  set (w0 := upsert_gateway Store store_exec p
               (upsert_station Store store_exec p w)).
  pose proof (store_upserts_measurements p w) as Hw0. fold w0 in Hw0.
  pose proof (store_run_count p (readings p) (w0, O)) as Hcount.
  pose proof (fun row => store_run_keeps p (readings p) row (w0, O)) as Hkeep.
  pose proof (fun sm => store_run_adds p (readings p) sm (w0, O)) as Hadd.
  pose proof (store_run_again p (readings p) (w0, O)) as Hagain.
  destruct (fold_left _ _ _) as [w' count]. cbn [fst snd] in *.
  rewrite Hw0 in *. subst count.
  split; [|split; [|split]].
  - unfold logf. simpl. apply last_snoc.
  - exact Hkeep.
  - exact Hadd.
  - exact Hagain.
Qed.

End Store.

(** ** The handler *)

(** C3. The normaliser accepts a message exactly when it unmarshals into
    a document whose [end_device_ids.dev_eui] is a non-empty string.  Any
    other message, a document without the field included, gets the
    unknown-shape error, and the handler then sends nothing to the
    database and leaves it as it was. *)
Theorem unknown_envelope_rejected
    (Unmarshal : list byte -> option DirectUp)
    (ToUpper : string -> string) (DB : Type)
    (Exec : DB -> statement -> DB * option string)
    (debug : bool) (now : Time) (msg : Message) (w : World DB) :
  let parsed := (parseUplink Unmarshal ToUpper DB debug now (MsgPayload msg) w).2 in
  ((exists p, parsed = inl p)
   <-> (exists du, Unmarshal (MsgPayload msg) = Some du
                   /\ DevEUI du <> EmptyString))
  /\ (forall e, parsed = inr e ->
        e = unknown_shape
        /\ calls (handleMessage Unmarshal ToUpper DB Exec debug now msg w) = calls w
        /\ db (handleMessage Unmarshal ToUpper DB Exec debug now msg w) = db w).
Proof.
  cbv zeta. rewrite parseUplink_result. split.
  - split.
    + intros [p Hp]. destruct (Unmarshal (MsgPayload msg)) as [du|];
        [|discriminate].
      exists du. split; [reflexivity|]. apply nonempty_spec.
      destruct (nonempty (DevEUI du)); [reflexivity|discriminate].
    + intros (du & -> & Hne). apply nonempty_spec in Hne. rewrite Hne.
      eexists; reflexivity.
  - intros e He. split.
    + destruct (Unmarshal (MsgPayload msg)) as [du|];
        [destruct (nonempty (DevEUI du)); [discriminate|]|]; congruence.
    + apply (handleMessage_rejected _ _ _ _ _ _ _ _ e).
      rewrite parseUplink_result. exact He.
Qed.

Lemma unknown_envelope_rejected_witness :
  calls (handleMessage sample_unmarshal ToUpperASCII Store store_exec true sample_now
           (sample_message ["001"%byte]) (fresh empty_store)) = []
  /\ db (handleMessage sample_unmarshal ToUpperASCII Store store_exec true sample_now
           (sample_message ["001"%byte]) (fresh empty_store)) = empty_store.
Proof.
  destruct (unknown_envelope_rejected sample_unmarshal ToUpperASCII Store store_exec true
              sample_now (sample_message ["001"%byte]) (fresh empty_store))
    as [_ H].
  destruct (H unknown_shape eq_refl) as (_ & Hc & Hd). split; assumption.
Defined.

(** C6. For an accepted envelope the timestamp of the record is, in UTC,
    the instant of the message-level received time if that is not the
    zero time, else of the envelope-level received time if that is not
    the zero time, else of the clock; and the station EUI is what
    [strings.ToUpper] makes of [dev_eui]: for a [dev_eui] of ASCII bytes,
    on which [strings.ToUpper] turns the letters a-z into A-Z and keeps
    the rest, the station EUI is [dev_eui] with its letters in upper
    case. *)
Theorem canonical_time_and_eui
    (Unmarshal : list byte -> option DirectUp)
    (ToUpper : string -> string) (DB : Type)
    (debug : bool) (now : Time) (b : list byte) (w : World DB)
    (du : DirectUp) (p : Parsed) :
  Unmarshal b = Some du ->
  (parseUplink Unmarshal ToUpper DB debug now b w).2 = inl p ->
  instant (When p) = instant (resolved_time du now)
  /\ zone (When p) = 0%Z
  /\ StationEUI p = ToUpper (DevEUI du)
  /\ ((forall s, ascii_only s = true -> ToUpper s = ToUpperASCII s) ->
      ascii_only (DevEUI du) = true ->
      StationEUI p = ToUpperASCII (DevEUI du)).
Proof.
  intros Hdu Hp. rewrite parseUplink_result, Hdu in Hp.
  destruct (nonempty (DevEUI du)); [|discriminate].
  injection Hp as <-. cbn [When StationEUI UTC instant zone].
  split; [|split; [reflexivity|split; [reflexivity|auto]]].
  unfold resolved_time.
  destruct (IsZero (MsgReceivedAt (UplinkMessage du))); [|reflexivity].
  destruct (IsZero (ReceivedAt du)); reflexivity.
Qed.

Lemma canonical_time_and_eui_witness :
  exists p,
    (parseUplink sample_unmarshal ToUpperASCII Store false sample_now
       ["003"%byte] (fresh empty_store)).2 = inl p
    /\ instant (When p) = 5000%Z /\ zone (When p) = 0%Z
    /\ StationEUI p = "70B3D57ED0069153"%string.
Proof.
  eexists. split; [reflexivity|].
  destruct (canonical_time_and_eui sample_unmarshal ToUpperASCII Store false
              sample_now ["003"%byte] (fresh empty_store) sample_uplink _
              eq_refl eq_refl) as (Ht & Hz & _ & He).
  split; [exact Ht|]. split; [exact Hz|].
  exact (He (fun s _ => eq_refl) eq_refl).
Defined.



(** C8, as the claim has it: the summary does not hold the number of
    rows attempted.  With a pool that fails every call, an uplink with two
    valid readings and an uplink with none end on the same summary, after
    two inserts attempted and after none. *)
Lemma summary_without_attempted_count :
  let run payload :=
    handleMessage sample_unmarshal ToUpperASCII unit closed_pool false sample_now
      (sample_message payload) (fresh tt) in
  last (logs (run ["003"%byte])) = Some (Ingested 0 "70B3D57ED0069153")
  /\ last (logs (run ["002"%byte])) = Some (Ingested 0 "70B3D57ED0069153")
  /\ length (measurement_rows (calls (run ["003"%byte]))) = 2%nat
  /\ length (measurement_rows (calls (run ["002"%byte]))) = 0%nat.
Proof. vm_compute. repeat split; reflexivity. Qed.

(** C8, amended: handling an accepted uplink ends on a summary line that
    holds the station EUI and the number of measurement inserts that came
    back without an error while it was handled. *)
Theorem summary_reports_count_and_eui
    (Unmarshal : list byte -> option DirectUp)
    (ToUpper : string -> string) (DB : Type)
    (Exec : DB -> statement -> DB * option string)
    (debug : bool) (now : Time) (msg : Message) (w : World DB) (p : Parsed) :
  (parseUplink Unmarshal ToUpper DB debug now (MsgPayload msg) w).2 = inl p ->
  exists count : nat,
    last (logs (handleMessage Unmarshal ToUpper DB Exec debug now msg w))
    = Some (Ingested count (StationEUI p))
    /\ (count + inserts_done (calls w)
        = inserts_done (calls (handleMessage Unmarshal ToUpper DB Exec debug now msg w)))%nat.
Proof.
  intros Hp. rewrite parseUplink_result in Hp.
  rewrite (handleMessage_accepted _ _ _ _ _ _ _ _ p)
    by (rewrite parseUplink_result; exact Hp).
  destruct (ingest_run DB Exec debug p
              (parseUplink Unmarshal ToUpper DB debug now (MsgPayload msg)
                 (debugf DB debug
                    (DebugTopic (Topic msg) (Qos msg) (Retained msg)) w)).1)
    as (count & Hlog & _ & Hcount).
  exists count. split; [exact Hlog|]. rewrite <- Hcount.
  destruct (parseUplink_calls Unmarshal ToUpper DB debug now (MsgPayload msg)
              (debugf DB debug
                 (DebugTopic (Topic msg) (Qos msg) (Retained msg)) w))
    as [-> _].
  now rewrite debugf_calls.
Qed.

Lemma summary_reports_count_and_eui_witness :
  exists p count,
    (parseUplink sample_unmarshal ToUpperASCII Store false sample_now ["003"%byte]
       (fresh empty_store)).2 = inl p
    /\ last (logs (handleMessage sample_unmarshal ToUpperASCII Store store_exec false
                     sample_now (sample_message ["003"%byte])
                     (fresh empty_store)))
       = Some (Ingested count (StationEUI p)).
Proof.
  eexists.
  destruct (summary_reports_count_and_eui sample_unmarshal ToUpperASCII Store store_exec
              false sample_now (sample_message ["003"%byte])
              (fresh empty_store) _ eq_refl) as (count & Hlog & _).
  exists count. split; [reflexivity|exact Hlog].
Defined.

(** C10. In the store an insert that meets a row with its key comes back
    without an error and writes nothing.  So a record with a reading the
    store takes, ingested twice, reports both times the same count, which
    is not zero: that of its readings of a valid type that fit the
    columns; and the second run leaves the table as the first left it. *)
Theorem duplicate_insert_still_counted
    (debug : bool) (p : Parsed) (w : World Store) (sm : Slave * Sensor) :
  In sm (readings p) -> persistable p sm = true ->
  let w1 := ingest Store store_exec debug p w in
  let w2 := ingest Store store_exec debug p w1 in
  let n := length (List.filter (persistable p) (readings p)) in
  (0 < n)%nat
  /\ last (logs w1) = Some (Ingested n (StationEUI p))
  /\ last (logs w2) = Some (Ingested n (StationEUI p))
  /\ measurements (db w2) = measurements (db w1)
  /\ (forall d row,
        row_fits row = true -> has_key row (measurements d) = true ->
        store_exec d (insertMeasurementSQL row) = (d, None)).
Proof.
  intros Hin Hok. cbv zeta.
  destruct (store_ingest debug p w) as (Hlog1 & _ & Hadd1 & _).
  destruct (store_ingest debug p (ingest Store store_exec debug p w))
    as (Hlog2 & _ & _ & Hagain).
  split; [|split; [exact Hlog1|split; [exact Hlog2|split]]].
  - assert (Hf : In sm (List.filter (persistable p) (readings p)))
      by (apply filter_In; auto).
    destruct (List.filter (persistable p) (readings p)); [destruct Hf|].
    simpl. lia.
  - apply Hagain. exact Hadd1.
  - apply store_conflict.
Qed.

Lemma duplicate_insert_still_counted_witness :
  (parseUplink sample_unmarshal ToUpperASCII Store false sample_now ["003"%byte]
     (fresh empty_store)).2 = inl sample_record
  /\ last (logs (ingest Store store_exec false sample_record
                   (ingest Store store_exec false sample_record
                      (fresh empty_store))))
     = Some (Ingested 2 "70B3D57ED0069153")
  /\ length (measurements
               (db (ingest Store store_exec false sample_record
                      (ingest Store store_exec false sample_record
                         (fresh empty_store)))))
     = 2%nat.
Proof.
  split; [reflexivity|].
  destruct (duplicate_insert_still_counted false sample_record
              (fresh empty_store) (sample_slave, sample_sensor)
              ltac:(left; reflexivity) eq_refl)
    as (_ & _ & Hlog2 & Htable & _).
  split; [exact Hlog2|]. rewrite Htable. reflexivity.
Defined.

End IngestorFacts.

(* ===================================================================== *)
(** * More properties of the payload formatter                            *)
(* ===================================================================== *)

Module FormatterMore.
Import Formatter FormatterFacts.

(** ** Helper lemmas *)

Lemma stops_with_known tail msg : stops_with tail msg -> In msg known_errors.
Proof.
  intros [tail' Hlen|t hdr rest Hfmt|t hdr rest len Hfmt Hlen].
  - left. reflexivity.
  - destruct hdr; vm_compute in Hfmt; try discriminate Hfmt;
      vm_compute; tauto.
  - right. left. reflexivity.
Qed.

Lemma broken_block_known block msg : broken_block block msg -> In msg known_errors.
Proof. intros [hi lo cnt rs tail msg' _ _ Hstop]. eapply stops_with_known, Hstop. Qed.

Lemma broken_block_length block msg :
  broken_block block msg -> (3 <= length block)%nat.
Proof. intros [hi lo cnt rs tail msg' _ _ _]. simpl. lia. Qed.

Lemma decoded_reading_ok r :
  reading_ok r = true -> sensor_ok (decoded_reading r) = true.
Proof.
  intros Hok. apply reading_ok_spec in Hok as (Ht & Hi & Hf & Hlen).
  unfold sensor_ok, decoded_reading. cbn [type index format value].
  rewrite !andb_true_iff, !Z.leb_le, !Z.ltb_lt. repeat split; try lia.
  unfold format_value.
  destruct (FORMAT_LEN_cases _ _ Hlen)
    as [[-> _]|[[-> _]|[[-> _]|[[-> _]|[[-> _]|[-> _]]]]]]; reflexivity.
Qed.

Lemma decoded_frame_ok f : frame_ok f = true -> slave_ok (decoded_frame f) = true.
Proof.
  intros Hok. apply frame_ok_spec in Hok as (Hid & Hcnt & Hrs).
  unfold slave_ok, decoded_frame. cbn [id sensors].
  rewrite !andb_true_iff, Z.leb_le, Z.ltb_lt, Nat.ltb_lt, length_map.
  repeat split; try lia.
  rewrite forallb_forall in Hrs |- *. intros s Hs.
  apply in_map_iff in Hs as (r & <- & Hr). apply decoded_reading_ok, Hrs, Hr.
Qed.

Lemma decoded_frames_ok fs :
  forallb frame_ok fs = true -> forallb slave_ok (map decoded_frame fs) = true.
Proof.
  rewrite !forallb_forall. intros Hfs s Hs.
  apply in_map_iff in Hs as (f & <- & Hf). apply decoded_frame_ok, Hfs, Hf.
Qed.

Lemma list_sum_cons (x : nat) (l : list nat) :
  list_sum (x :: l) = (x + list_sum l)%nat.
Proof. reflexivity. Qed.

Lemma wire_reading_size r :
  reading_ok r = true ->
  length (wire_reading r) = sensor_size (decoded_reading r)
  /\ (3 <= length (wire_reading r))%nat.
Proof.
  intros Hok. apply reading_ok_spec in Hok as (_ & _ & _ & Hlen).
  pose proof (FORMAT_LEN_pos _ _ Hlen).
  unfold sensor_size, decoded_reading, wire_reading. cbn [format length].
  rewrite Hlen. simpl. lia.
Qed.

Lemma wire_readings_size rs :
  forallb reading_ok rs = true ->
  length (wire_readings rs) = list_sum (map sensor_size (map decoded_reading rs))
  /\ (3 * length rs <= length (wire_readings rs))%nat.
Proof.
  induction rs as [|r rs IH]; intros Hok; [split; reflexivity|].
  simpl in Hok. apply andb_true_iff in Hok as [Hr Hrs].
  destruct (IH Hrs) as [IH1 IH2]. destruct (wire_reading_size r Hr) as [H1 H2].
  rewrite wire_readings_cons, length_app. cbn [map length].
  rewrite list_sum_cons. split; lia.
Qed.

Lemma wire_size fs :
  forallb frame_ok fs = true ->
  length (wire fs) = list_sum (map slave_size (map decoded_frame fs))
  /\ (3 * (length fs + count_sensors (map decoded_frame fs))
      <= length (wire fs))%nat.
Proof.
  induction fs as [|f fs IH]; intros Hok; [split; reflexivity|].
  simpl in Hok. apply andb_true_iff in Hok as [Hf Hfs].
  destruct (IH Hfs) as [IH1 IH2].
  apply frame_ok_spec in Hf as (_ & _ & Hrs).
  destruct (wire_readings_size _ Hrs) as [H1 H2].
  rewrite wire_cons, length_app, wire_frame_length.
  unfold count_sensors in *. cbn [map length]. rewrite !list_sum_cons.
  unfold slave_size at 1, decoded_frame at 1. cbn [sensors].
  unfold decoded_frame at 2. cbn [sensors]. rewrite length_map.
  split; lia.
Qed.

(** ** Properties *)

(** X1. The decoder completes normally on every input: it never throws,
    never reads past the end and never runs out of fuel; and it returns
    one warning, or one error, or neither, never more. *)
Theorem decodeUplink_one_diagnostic (bytes : list byte) :
  exists out,
    decodeUplink bytes = Normal out
    /\ (length (warnings out) + length (errors out) <= 1)%nat.
Proof.
  destruct (decodeUplink_classify bytes) as (fs & tail & _ & _ & Hout).
  destruct Hout as [[_ Hrun]|[[_ Hrun]|(msg & _ & Hrun)]];
    eexists; (split; [exact Hrun|]); simpl; lia.
Qed.

(** X2. The only warning the decoder gives is the one about extra bytes,
    and its errors are the two truncation messages and the unknown
    formats 6 and 7: the header byte leaves no other code without a
    length. *)
Theorem decodeUplink_messages (bytes : list byte) :
  exists out,
    decodeUplink bytes = Normal out
    /\ (forall w, In w (warnings out) ->
          w = "Extra bytes at end of payload"%string)
    /\ (forall e, In e (errors out) -> In e known_errors).
Proof.
  destruct (decodeUplink_classify bytes) as (fs & tail & _ & _ & Hout).
  destruct Hout as [[_ Hrun]|[[_ Hrun]|(msg & Hbroken & Hrun)]];
    eexists; (split; [exact Hrun|]); cbn [warnings errors]; split;
    try (intros x []; fail).
  - intros w [<-|[]]. reflexivity.
  - intros e [<-|[]]. eapply broken_block_known, Hbroken.
Qed.

(** X3. Whatever the input, every slave returned has an id of 16 bits
    and at most 255 sensors, and every sensor a type of 8 bits, an index
    of 5 bits, a format from 0 to 5 and a Number as its value: the
    [default] branch of the [switch], which would return the raw bytes,
    is never taken. *)
Theorem decodeUplink_slaves_ok (bytes : list byte) :
  exists out,
    decodeUplink bytes = Normal out
    /\ forallb slave_ok (slaves out) = true.
Proof.
  destruct (decodeUplink_classify bytes) as (fs & tail & Hfs & _ & Hout).
  destruct Hout as [[_ Hrun]|[[_ Hrun]|(msg & _ & Hrun)]];
    eexists; (split; [exact Hrun|]); apply decoded_frames_ok, Hfs.
Qed.

(** X4. The slaves returned account for the bytes they were read from:
    three bytes a slave, and two plus the length of its format a sensor.
    The sum never exceeds the length of the input, and equals it exactly
    when the decoder returns no warning and no error. *)
Theorem decodeUplink_bytes_accounted (bytes : list byte) :
  exists out,
    decodeUplink bytes = Normal out
    /\ (list_sum (map slave_size (slaves out)) <= length bytes)%nat
    /\ (list_sum (map slave_size (slaves out)) = length bytes
        <-> warnings out = [] /\ errors out = []).
Proof.
  destruct (decodeUplink_classify bytes) as (fs & tail & Hfs & -> & Hout).
  destruct (wire_size fs Hfs) as [Hsize _]. rewrite length_app.
  destruct Hout as [[-> Hrun]|[[Hlen Hrun]|(msg & Hbroken & Hrun)]];
    eexists; (split; [exact Hrun|]); cbn [slaves warnings errors];
    rewrite <- Hsize.
  - simpl. split; [lia|]. split; [auto|lia].
  - split; [lia|]. split; [lia|]. intros [H _]. discriminate H.
  - apply broken_block_length in Hbroken.
    split; [lia|]. split; [lia|]. intros [_ H]. discriminate H.
Qed.

(** X5. A slave takes at least three bytes and a sensor at least three
    more, so an input of [n] bytes returns at most [n / 3] slaves and
    sensors together. *)
Theorem decodeUplink_count_bound (bytes : list byte) :
  exists out,
    decodeUplink bytes = Normal out
    /\ (3 * (length (slaves out) + count_sensors (slaves out))
        <= length bytes)%nat.
Proof.
  destruct (decodeUplink_classify bytes) as (fs & tail & Hfs & -> & Hout).
  destruct (wire_size fs Hfs) as [_ Hcount]. rewrite length_app.
  destruct Hout as [[_ Hrun]|[[_ Hrun]|(msg & _ & Hrun)]];
    eexists; (split; [exact Hrun|]); cbn [slaves];
    rewrite length_map; lia.
Qed.

(** Helper: an input that decodes with no warning and no error is the
    wire form of frames that decode to its slaves. *)
Lemma clean_is_wire bytes ss :
  decodeUplink bytes
  = Normal {| slaves := ss; warnings := []; errors := [] |} ->
  exists fs, forallb frame_ok fs = true /\ bytes = wire fs
             /\ ss = map decoded_frame fs.
Proof.
  intros Hrun.
  destruct (decodeUplink_classify bytes) as (fs & tail & Hfs & -> & Hout).
  destruct Hout as [[-> Hrun']|[[_ Hrun']|(msg & _ & Hrun')]];
    rewrite Hrun' in Hrun; inversion Hrun; subst.
  exists fs. rewrite app_nil_r. auto.
Qed.

(** X6. Payloads concatenate: when a first input decodes with no warning
    and no error, decoding it followed by a second input gives the slaves
    of the first, then whatever the second gives alone, its warning or
    error included. *)
Theorem decodeUplink_concat (a b : list byte) (ss : list slave) :
  decodeUplink a
  = Normal {| slaves := ss; warnings := []; errors := [] |} ->
  decodeUplink (a ++ b)
  = map_completion (prepend_slaves ss) (decodeUplink b).
Proof.
  intros Hrun. apply clean_is_wire in Hrun as (fs & Hfs & -> & ->).
  now apply decodeUplink_frames.
Qed.

Lemma decodeUplink_concat_witness :
  decodeUplink ([x00; x01; x01;  x01; x20; x19; x00]
                  ++ [x00; x02; x01;  x02; xc1])
  = Normal {| slaves := [ {| id := 1;
                             sensors := [ {| type := 1; index := 0; format := 1;
                                             value := Num 25 |} ] |} ];
              warnings := []; errors := ["Unknown format 6"%string] |}.
Proof.
  rewrite (decodeUplink_concat _ _
             [ {| id := 1;
                  sensors := [ {| type := 1; index := 0; format := 1;
                                  value := Num 25 |} ] |} ]).
  - vm_compute. reflexivity.
  - vm_compute. reflexivity.
Defined.

(** X7. More bytes never change what is decoded already: the slaves of
    an input are the first slaves of the input with anything appended. *)
Theorem decodeUplink_prefix_stable (a b : list byte) :
  exists oa oab more,
    decodeUplink a = Normal oa
    /\ decodeUplink (a ++ b) = Normal oab
    /\ slaves oab = slaves oa ++ more.
Proof.
  destruct (decodeUplink_classify a) as (fs & tail & Hfs & -> & Hout).
  destruct (decodeUplink_normal (tail ++ b)) as [ob Hb].
  assert (Hab : decodeUplink ((wire fs ++ tail) ++ b)
                = Normal (prepend_slaves (map decoded_frame fs) ob))
    by (rewrite <- app_assoc, decodeUplink_frames, Hb by exact Hfs;
        reflexivity).
  destruct Hout as [[_ Hrun]|[[_ Hrun]|(msg & _ & Hrun)]];
    eexists _, _, (slaves ob);
    (split; [exact Hrun|]); (split; [exact Hab|]); reflexivity.
Qed.

End FormatterMore.

(* ===================================================================== *)
(** * More properties of the ingestion service                            *)
(* ===================================================================== *)

Module IngestorMore.
Import Ingestor IngestorFacts.

Lemma plain_app l l' : plain (l ++ l') = plain l ++ plain l'.
Proof. unfold plain. apply List.filter_app. Qed.

Lemma insert_errors_app l l' :
  insert_errors (l ++ l') = (insert_errors l + insert_errors l')%nat.
Proof. unfold insert_errors. now rewrite List.filter_app, length_app. Qed.

Lemma nonempty_ToUpper s : nonempty (ToUpperASCII s) = nonempty s.
Proof. destruct s; reflexivity. Qed.

Section Handler.

Variable Unmarshal : list byte -> option DirectUp.
Variable ToUpper : string -> string.
Variable DB : Type.
Variable Exec : DB -> statement -> DB * option string.

Abbreviation World := (World DB).
Abbreviation exec := (exec DB Exec).

Abbreviation run := (run Exec).

(** *** What one run sends and does *)

Lemma exec_effect q (w : World) :
  map fst (calls (exec q w).1) = map fst (calls w) ++ [q]
  /\ db (exec q w).1 = (Exec (db w) q).1
  /\ logs (exec q w).1 = logs w.
Proof.
  unfold Ingestor.exec. destruct (Exec (db w) q) as [d' err]. simpl.
  now rewrite map_app.
Qed.

Lemma upsert_station_effect p (w : World) :
  map fst (calls (upsert_station DB Exec p w))
  = map fst (calls w) ++ station_statement p
  /\ db (upsert_station DB Exec p w) = run (station_statement p) (db w)
  /\ insert_errors (logs (upsert_station DB Exec p w)) = insert_errors (logs w).
Proof.
  unfold upsert_station, station_statement.
  destruct (nonempty (AppID p) && nonempty (StationEUI p));
    [|rewrite app_nil_r; auto].
  destruct (exec_effect (upsertStationSQL (StationEUI p) (AppID p)
                           (nullIfEmpty (StationDevID p))) w) as (Hc & Hd & Hl).
  destruct (exec _ w) as [w' [e|]]; cbn [fst snd] in *; unfold logf;
    cbn [db calls logs]; rewrite ?Hl, ?insert_errors_app; repeat split;
    (assumption || (unfold insert_errors; simpl; lia)).
Qed.

Lemma upsert_gateway_effect p (w : World) :
  map fst (calls (upsert_gateway DB Exec p w))
  = map fst (calls w) ++ gateway_statement p
  /\ db (upsert_gateway DB Exec p w) = run (gateway_statement p) (db w)
  /\ insert_errors (logs (upsert_gateway DB Exec p w)) = insert_errors (logs w).
Proof.
  unfold upsert_gateway, gateway_statement.
  destruct (RxMeta (Msg p)) as [|rm rms]; [rewrite app_nil_r; auto|].
  destruct (nonempty (GatewayID rm)); [|rewrite app_nil_r; auto].
  destruct (exec_effect (upsertGatewaySQL (GatewayID rm) (EUI rm)) w)
    as (Hc & Hd & Hl).
  destruct (exec _ w) as [w' [e|]]; cbn [fst snd] in *; unfold logf;
    cbn [db calls logs]; rewrite ?Hl, ?insert_errors_app; repeat split;
    (assumption || (unfold insert_errors; simpl; lia)).
Qed.

Lemma insert_sm_effect debug p (st : World * nat) sm :
  map fst (calls (insert_sm DB Exec debug p st sm).1)
  = map fst (calls st.1) ++ insert_statements p [sm]
  /\ db (insert_sm DB Exec debug p st sm).1
     = run (insert_statements p [sm]) (db st.1)
  /\ ((insert_sm DB Exec debug p st sm).2
      + insert_errors (logs (insert_sm DB Exec debug p st sm).1)
      = st.2 + insert_errors (logs st.1)
        + length (insert_statements p [sm]))%nat.
Proof.
  destruct st as [w count], sm as [s m].
  unfold insert_sm, insert_reading, insert_statements. cbn [fst snd List.filter].
  rewrite (valid_type_spec s m). destruct (valid_type (s, m)); cbn [map].
  - destruct (exec_effect (insertMeasurementSQL (row_of p s m)) w)
      as (Hc & Hd & Hl).
    destruct (exec _ w) as [w' [e|]]; cbn [fst snd] in *; unfold logf;
      cbn [db calls logs]; rewrite ?Hl, ?insert_errors_app; repeat split;
      try assumption; unfold insert_errors; simpl; lia.
  - unfold debugf, logf. destruct debug; cbn [fst snd db calls logs];
      rewrite ?insert_errors_app, app_nil_r; repeat split;
      unfold insert_errors; simpl; lia.
Qed.

Lemma insert_statements_cons p sm l :
  insert_statements p (sm :: l)
  = insert_statements p [sm] ++ insert_statements p l.
Proof.
  unfold insert_statements. cbn [List.filter].
  destruct (valid_type sm); reflexivity.
Qed.

Lemma run_app qs qs' d : run (qs ++ qs') d = run qs' (run qs d).
Proof. apply fold_left_app. Qed.

Lemma insert_fold_effect debug p l : forall st : World * nat,
  map fst (calls (fold_left (insert_sm DB Exec debug p) l st).1)
  = map fst (calls st.1) ++ insert_statements p l
  /\ db (fold_left (insert_sm DB Exec debug p) l st).1
     = run (insert_statements p l) (db st.1)
  /\ ((fold_left (insert_sm DB Exec debug p) l st).2
      + insert_errors (logs (fold_left (insert_sm DB Exec debug p) l st).1)
      = st.2 + insert_errors (logs st.1)
        + length (insert_statements p l))%nat.
Proof.
  induction l as [|sm l IH]; intros st.
  - simpl. rewrite app_nil_r. repeat split; lia.
  - cbn [fold_left]. destruct (IH (insert_sm DB Exec debug p st sm))
      as (IHc & IHd & IHn).
    destruct (insert_sm_effect debug p st sm) as (Hc & Hd & Hn).
    rewrite insert_statements_cons, run_app, length_app.
    rewrite IHc, IHd, Hc, Hd, <- app_assoc. repeat split; lia.
Qed.

(** Handling a record sends [statements_of] it, whatever the pool
    answers, leaves the database as those statements leave it, and ends
    on the summary. *)
Lemma ingest_effect debug p (w : World) :
  map fst (calls (ingest DB Exec debug p w))
  = map fst (calls w) ++ statements_of p
  /\ db (ingest DB Exec debug p w) = run (statements_of p) (db w)
  /\ exists count : nat,
       last (logs (ingest DB Exec debug p w))
       = Some (Ingested count (StationEUI p))
       /\ (count + insert_errors (logs (ingest DB Exec debug p w))
           = insert_errors (logs w)
             + length (List.filter valid_type (readings p)))%nat.
Proof.
  unfold ingest. rewrite insert_measurements_readings.
  destruct (upsert_station_effect p w) as (Hsc & Hsd & Hsn).
  destruct (upsert_gateway_effect p (upsert_station DB Exec p w))
    as (Hgc & Hgd & Hgn).
  destruct (insert_fold_effect debug p (readings p)
              (upsert_gateway DB Exec p (upsert_station DB Exec p w), O))
    as (Hc & Hd & Hn).
  destruct (fold_left _ _ _) as [w' count]. cbn [fst snd] in *.
  unfold statements_of. rewrite !run_app. unfold logf. cbn [db calls logs].
  rewrite Hc, Hd, Hgc, Hgd, Hsc, Hsd, <- !app_assoc.
  split; [reflexivity|]. split; [reflexivity|].
  exists count. split; [apply last_snoc|].
  rewrite insert_errors_app. unfold insert_statements in Hn.
  rewrite length_map in Hn. unfold insert_errors at 2. simpl. lia.
Qed.

(** *** Debug output *)

Lemma debugf_plain debug l (w : World) :
  is_debug l = true ->
  db (debugf DB debug l w) = db w
  /\ calls (debugf DB debug l w) = calls w
  /\ plain (logs (debugf DB debug l w)) = plain (logs w)
  /\ insert_errors (logs (debugf DB debug l w)) = insert_errors (logs w).
Proof.
  intros Hl. unfold debugf, logf. destruct debug; cbn [db calls logs]; auto.
  rewrite plain_app, insert_errors_app. unfold plain, insert_errors.
  cbn [List.filter]. rewrite Hl. destruct l; try discriminate Hl;
    simpl; rewrite app_nil_r; repeat split; lia.
Qed.

Lemma parseUplink_world debug now b (w : World) :
  exists l, is_debug l = true
            /\ (parseUplink Unmarshal ToUpper DB debug now b w).1 = debugf DB debug l w.
Proof.
  unfold parseUplink.
  destruct (Unmarshal b) as [du|]; [destruct (nonempty (DevEUI du))|];
    eexists; (split; [|reflexivity]); reflexivity.
Qed.

Lemma parseUplink_any debug debug' now b (w w' : World) :
  (parseUplink Unmarshal ToUpper DB debug now b w).2
  = (parseUplink Unmarshal ToUpper DB debug' now b w').2.
Proof. now rewrite !parseUplink_result. Qed.

(** The world an accepted message is ingested in. *)
Lemma handle_accepted debug now msg (w : World) p :
  (parseUplink Unmarshal ToUpper DB debug now (MsgPayload msg) w).2 = inl p ->
  exists w0,
    handleMessage Unmarshal ToUpper DB Exec debug now msg w = ingest DB Exec debug p w0
    /\ db w0 = db w /\ calls w0 = calls w
    /\ plain (logs w0) = plain (logs w)
    /\ insert_errors (logs w0) = insert_errors (logs w).
Proof.
  intros Hp.
  set (w1 := debugf DB debug (DebugTopic (Topic msg) (Qos msg) (Retained msg)) w).
  rewrite (parseUplink_any debug debug now _ w w1) in Hp.
  exists (parseUplink Unmarshal ToUpper DB debug now (MsgPayload msg) w1).1.
  split; [now apply handleMessage_accepted|].
  destruct (parseUplink_world debug now (MsgPayload msg) w1) as (l & Hl & ->).
  destruct (debugf_plain debug l w1 Hl) as (-> & -> & -> & ->).
  subst w1. now apply debugf_plain.
Qed.

Lemma handle_rejected debug now msg (w : World) e :
  (parseUplink Unmarshal ToUpper DB debug now (MsgPayload msg) w).2 = inr e ->
  e = unknown_shape
  /\ plain (logs (handleMessage Unmarshal ToUpper DB Exec debug now msg w))
     = plain (logs w) ++ [ParseError unknown_shape]
  /\ db (handleMessage Unmarshal ToUpper DB Exec debug now msg w) = db w
  /\ calls (handleMessage Unmarshal ToUpper DB Exec debug now msg w) = calls w.
Proof.
  intros Hp.
  assert (He : e = unknown_shape).
  { rewrite parseUplink_result in Hp.
    destruct (Unmarshal (MsgPayload msg)) as [du|];
      [destruct (nonempty (DevEUI du)); [discriminate|]|]; congruence. }
  subst e. split; [reflexivity|].
  set (w1 := debugf DB debug (DebugTopic (Topic msg) (Qos msg) (Retained msg)) w).
  rewrite (parseUplink_any debug debug now _ w w1) in Hp.
  unfold handleMessage. fold w1.
  destruct (parseUplink_world debug now (MsgPayload msg) w1) as (l & Hl & Hw).
  destruct (parseUplink _ _ _ _ _ _ w1) as [w2 r]. cbn [fst snd] in *.
  subst r w2. unfold logf. cbn [db calls logs]. rewrite plain_app.
  destruct (debugf_plain debug l w1 Hl) as (-> & -> & -> & _).
  subst w1.
  destruct (debugf_plain debug (DebugTopic (Topic msg) (Qos msg) (Retained msg))
              w eq_refl) as (-> & -> & -> & _).
  auto.
Qed.

(** *** Two runs side by side *)

Lemma same_debugf d1 d2 l1 l2 (w1 w2 : World) :
  is_debug l1 = true -> is_debug l2 = true ->
  same_but_debug w1 w2 ->
  same_but_debug (debugf DB d1 l1 w1) (debugf DB d2 l2 w2).
Proof.
  intros H1 H2 (Hd & Hc & Hl). unfold same_but_debug.
  destruct (debugf_plain d1 l1 w1 H1) as (-> & -> & -> & _).
  destruct (debugf_plain d2 l2 w2 H2) as (-> & -> & -> & _).
  now split.
Qed.

Lemma same_logf l (w1 w2 : World) :
  same_but_debug w1 w2 -> same_but_debug (logf DB l w1) (logf DB l w2).
Proof.
  intros (Hd & Hc & Hl). unfold same_but_debug, logf. cbn [db calls logs].
  now rewrite !plain_app, Hl.
Qed.

Lemma same_exec q (w1 w2 : World) :
  same_but_debug w1 w2 ->
  same_but_debug (exec q w1).1 (exec q w2).1 /\ (exec q w1).2 = (exec q w2).2.
Proof.
  intros (Hd & Hc & Hl). unfold Ingestor.exec. rewrite Hd, Hc.
  destruct (Exec (db w2) q) as [d' err]. cbn [fst snd].
  unfold same_but_debug. cbn [db calls logs]. auto.
Qed.

Lemma same_upsert_station p (w1 w2 : World) :
  same_but_debug w1 w2 ->
  same_but_debug (upsert_station DB Exec p w1) (upsert_station DB Exec p w2).
Proof.
  intros Hs. unfold upsert_station.
  destruct (nonempty (AppID p) && nonempty (StationEUI p)); [|exact Hs].
  destruct (same_exec (upsertStationSQL (StationEUI p) (AppID p)
                         (nullIfEmpty (StationDevID p))) w1 w2 Hs) as [Hw He].
  destruct (exec _ w1) as [w1' e1], (exec _ w2) as [w2' e2].
  cbn [fst snd] in *. subst e2. destruct e1; [now apply same_logf|exact Hw].
Qed.

Lemma same_upsert_gateway p (w1 w2 : World) :
  same_but_debug w1 w2 ->
  same_but_debug (upsert_gateway DB Exec p w1) (upsert_gateway DB Exec p w2).
Proof.
  intros Hs. unfold upsert_gateway.
  destruct (RxMeta (Msg p)) as [|rm rms]; [exact Hs|].
  destruct (nonempty (GatewayID rm)); [|exact Hs].
  destruct (same_exec (upsertGatewaySQL (GatewayID rm) (EUI rm)) w1 w2 Hs)
    as [Hw He].
  destruct (exec _ w1) as [w1' e1], (exec _ w2) as [w2' e2].
  cbn [fst snd] in *. subst e2. destruct e1; [now apply same_logf|exact Hw].
Qed.

Lemma same_insert_sm d1 d2 p sm (st1 st2 : World * nat) :
  same_but_debug st1.1 st2.1 -> st1.2 = st2.2 ->
  same_but_debug (insert_sm DB Exec d1 p st1 sm).1
                 (insert_sm DB Exec d2 p st2 sm).1
  /\ (insert_sm DB Exec d1 p st1 sm).2 = (insert_sm DB Exec d2 p st2 sm).2.
Proof.
  destruct st1 as [w1 c1], st2 as [w2 c2], sm as [s m]. cbn [fst snd].
  intros Hs <-. unfold insert_sm, insert_reading. cbn [fst snd].
  destruct (bool_decide (Type_ m ∈ validSensorTypes)).
  - destruct (same_exec (insertMeasurementSQL (row_of p s m)) w1 w2 Hs)
      as [Hw He].
    destruct (exec _ w1) as [w1' e1], (exec _ w2) as [w2' e2].
    cbn [fst snd] in *. subst e2.
    destruct e1; cbn [fst snd]; split; (reflexivity || assumption || idtac).
    now apply same_logf.
  - cbn [fst snd]. split; [|reflexivity]. now apply same_debugf.
Qed.

Lemma same_fold d1 d2 p l : forall st1 st2 : World * nat,
  same_but_debug st1.1 st2.1 -> st1.2 = st2.2 ->
  same_but_debug (fold_left (insert_sm DB Exec d1 p) l st1).1
                 (fold_left (insert_sm DB Exec d2 p) l st2).1
  /\ (fold_left (insert_sm DB Exec d1 p) l st1).2
     = (fold_left (insert_sm DB Exec d2 p) l st2).2.
Proof.
  induction l as [|sm l IH]; intros st1 st2 Hs Hc; [auto|].
  cbn [fold_left]. destruct (same_insert_sm d1 d2 p sm st1 st2 Hs Hc).
  now apply IH.
Qed.

Lemma same_ingest d1 d2 p (w1 w2 : World) :
  same_but_debug w1 w2 ->
  same_but_debug (ingest DB Exec d1 p w1) (ingest DB Exec d2 p w2).
Proof.
  intros Hs. unfold ingest. rewrite !insert_measurements_readings.
  destruct (same_fold d1 d2 p (readings p)
              (upsert_gateway DB Exec p (upsert_station DB Exec p w1), O)
              (upsert_gateway DB Exec p (upsert_station DB Exec p w2), O))
    as [Hw Hc]; [now apply same_upsert_gateway, same_upsert_station|reflexivity|].
  destruct (fold_left (insert_sm DB Exec d1 p) _ _) as [w1' c1].
  destruct (fold_left (insert_sm DB Exec d2 p) _ _) as [w2' c2].
  cbn [fst snd] in *. subst c2. now apply same_logf.
Qed.

Lemma same_handleMessage d1 d2 now msg (w : World) :
  same_but_debug (handleMessage Unmarshal ToUpper DB Exec d1 now msg w)
                 (handleMessage Unmarshal ToUpper DB Exec d2 now msg w).
Proof.
  unfold handleMessage.
  set (t := DebugTopic (Topic msg) (Qos msg) (Retained msg)).
  assert (Hs : same_but_debug (debugf DB d1 t w) (debugf DB d2 t w))
    by (apply same_debugf; try reflexivity; repeat split).
  pose proof (parseUplink_any d1 d2 now (MsgPayload msg)
                (debugf DB d1 t w) (debugf DB d2 t w)) as Hr.
  destruct (parseUplink_world d1 now (MsgPayload msg) (debugf DB d1 t w))
    as (l1 & Hl1 & Hw1).
  destruct (parseUplink_world d2 now (MsgPayload msg) (debugf DB d2 t w))
    as (l2 & Hl2 & Hw2).
  destruct (parseUplink _ _ _ d1 _ _ _) as [w1 r1].
  destruct (parseUplink _ _ _ d2 _ _ _) as [w2 r2].
  cbn [fst snd] in *. subst r2 w1 w2.
  assert (Hs' : same_but_debug (debugf DB d1 l1 (debugf DB d1 t w))
                               (debugf DB d2 l2 (debugf DB d2 t w)))
    by now apply same_debugf.
  destruct r1; [now apply same_ingest|now apply same_logf].
Qed.

End Handler.

(** ** The handler, for any pool *)

Lemma nullIfEmpty_not_empty s : nullIfEmpty s <> Some EmptyString.
Proof. unfold nullIfEmpty. destruct s; simpl; congruence. Qed.

Lemma statements_first_gateway p :
  statements_of (first_gateway_only p) = statements_of p.
Proof.
  assert (Hg : gateway_statement (first_gateway_only p) = gateway_statement p).
  { unfold gateway_statement, first_gateway_only. cbn [Msg RxMeta].
    destruct (RxMeta (Msg p)); reflexivity. }
  assert (Hi : forall l, insert_statements (first_gateway_only p) l
                         = insert_statements p l).
  { intros l. unfold insert_statements. apply map_ext. intros [s m].
    unfold row_sm, row_of, gateway_of, first_gateway_only.
    cbn [fst snd When StationEUI StationDevID Msg RxMeta].
    destruct (RxMeta (Msg p)); reflexivity. }
  unfold statements_of. rewrite Hg, Hi. reflexivity.
Qed.

(** X8. The statements an accepted uplink sends are fixed by its record:
    the station upsert, the gateway upsert, then one insert for each
    reading of a valid type, in that order.  They do not depend on what
    the pool answers, so an upsert or an insert that fails holds back
    nothing that follows it; and the database is left as those statements,
    run in order, leave it. *)
Theorem handleMessage_statements
    (Unmarshal : list byte -> option DirectUp)
    (ToUpper : string -> string) (DB : Type)
    (Exec : DB -> statement -> DB * option string)
    (debug : bool) (now : Time) (msg : Message) (w : World DB) (p : Parsed) :
  (parseUplink Unmarshal ToUpper DB debug now (MsgPayload msg) w).2 = inl p ->
  map fst (calls (handleMessage Unmarshal ToUpper DB Exec debug now msg w))
  = map fst (calls w) ++ statements_of p
  /\ db (handleMessage Unmarshal ToUpper DB Exec debug now msg w)
     = run Exec (statements_of p) (db w).
Proof.
  intros Hp.
  destruct (handle_accepted Unmarshal ToUpper DB Exec debug now msg w p Hp)
    as (w0 & -> & Hd & Hc & _).
  destruct (ingest_effect DB Exec debug p w0) as (-> & -> & _).
  now rewrite Hd, Hc.
Qed.

Lemma handleMessage_statements_witness :
  map fst (calls (handleMessage sample_unmarshal ToUpperASCII unit closed_pool false
                    sample_now (sample_message ["003"%byte]) (fresh tt)))
  = statements_of sample_record
  /\ length (statements_of sample_record) = 4%nat.
Proof.
  split; [|reflexivity].
  apply (handleMessage_statements sample_unmarshal ToUpperASCII unit closed_pool false
           sample_now (sample_message ["003"%byte]) (fresh tt) sample_record).
  reflexivity.
Defined.

(** X9. Of [rx_metadata] only the first entry is used: a record and the
    same record cut down to its first entry send the same statements,
    gateway id and location of every row included, and leave the same
    database. *)
Theorem only_first_gateway_used
    (DB : Type) (Exec : DB -> statement -> DB * option string)
    (debug : bool) (p : Parsed) (w : World DB) :
  map fst (calls (ingest DB Exec debug p w))
  = map fst (calls (ingest DB Exec debug (first_gateway_only p) w))
  /\ db (ingest DB Exec debug p w)
     = db (ingest DB Exec debug (first_gateway_only p) w).
Proof.
  destruct (ingest_effect DB Exec debug p w) as (-> & -> & _).
  destruct (ingest_effect DB Exec debug (first_gateway_only p) w)
    as (-> & -> & _).
  now rewrite statements_first_gateway.
Qed.

(** X10. Every reading of a valid type is accounted for: handling an
    accepted uplink, the count of the summary and the number of
    insert-error lines written add up to the number of its readings whose
    type is valid. *)
Theorem valid_readings_accounted
    (Unmarshal : list byte -> option DirectUp)
    (ToUpper : string -> string) (DB : Type)
    (Exec : DB -> statement -> DB * option string)
    (debug : bool) (now : Time) (msg : Message) (w : World DB) (p : Parsed) :
  (parseUplink Unmarshal ToUpper DB debug now (MsgPayload msg) w).2 = inl p ->
  exists count : nat,
    last (logs (handleMessage Unmarshal ToUpper DB Exec debug now msg w))
    = Some (Ingested count (StationEUI p))
    /\ (count
        + insert_errors (logs (handleMessage Unmarshal ToUpper DB Exec debug now msg w))
        = insert_errors (logs w)
          + length (List.filter valid_type (readings p)))%nat.
Proof.
  intros Hp.
  destruct (handle_accepted Unmarshal ToUpper DB Exec debug now msg w p Hp)
    as (w0 & -> & _ & _ & _ & Hn).
  destruct (ingest_effect DB Exec debug p w0) as (_ & _ & count & Hlog & Hcount).
  exists count. split; [exact Hlog|]. now rewrite Hcount, Hn.
Qed.

Lemma valid_readings_accounted_witness :
  exists count : nat,
    last (logs (handleMessage sample_unmarshal ToUpperASCII unit closed_pool false
                  sample_now (sample_message ["003"%byte]) (fresh tt)))
    = Some (Ingested count "70B3D57ED0069153")
    /\ (count
        + insert_errors
            (logs (handleMessage sample_unmarshal ToUpperASCII unit closed_pool false
                     sample_now (sample_message ["003"%byte]) (fresh tt)))
        = 2)%nat.
Proof.
  exact (valid_readings_accounted sample_unmarshal ToUpperASCII unit closed_pool false
           sample_now (sample_message ["003"%byte]) (fresh tt) sample_record
           eq_refl).
Defined.

(** X11. The debug flag changes the log and nothing else: run with the
    flag set and with it clear, the handler leaves the same database, has
    sent the same statements with the same answers, and has written the
    same lines but for those of [debugf]. *)
Theorem debug_changes_log_only
    (Unmarshal : list byte -> option DirectUp)
    (ToUpper : string -> string) (DB : Type)
    (Exec : DB -> statement -> DB * option string)
    (now : Time) (msg : Message) (w : World DB) :
  db (handleMessage Unmarshal ToUpper DB Exec true now msg w)
  = db (handleMessage Unmarshal ToUpper DB Exec false now msg w)
  /\ calls (handleMessage Unmarshal ToUpper DB Exec true now msg w)
     = calls (handleMessage Unmarshal ToUpper DB Exec false now msg w)
  /\ plain (logs (handleMessage Unmarshal ToUpper DB Exec true now msg w))
     = plain (logs (handleMessage Unmarshal ToUpper DB Exec false now msg w)).
Proof. apply same_handleMessage. Qed.

(** X12. A rejected message writes one line besides debug output, the
    parse error with the unknown-shape message. *)
Theorem rejected_logs_parse_error
    (Unmarshal : list byte -> option DirectUp)
    (ToUpper : string -> string) (DB : Type)
    (Exec : DB -> statement -> DB * option string)
    (debug : bool) (now : Time) (msg : Message) (w : World DB) (e : string) :
  (parseUplink Unmarshal ToUpper DB debug now (MsgPayload msg) w).2 = inr e ->
  plain (logs (handleMessage Unmarshal ToUpper DB Exec debug now msg w))
  = plain (logs w) ++ [ParseError unknown_shape].
Proof.
  intros Hp.
  now destruct (handle_rejected Unmarshal ToUpper DB Exec debug now msg w e Hp)
    as (_ & H & _).
Qed.

Lemma rejected_logs_parse_error_witness :
  plain (logs (handleMessage sample_unmarshal ToUpperASCII Store store_exec true sample_now
                 (sample_message []) (fresh empty_store)))
  = [ParseError unknown_shape].
Proof.
  exact (rejected_logs_parse_error sample_unmarshal ToUpperASCII Store store_exec true
           sample_now (sample_message []) (fresh empty_store) unknown_shape
           eq_refl).
Defined.

(** X13. With a clock that does not read the zero time, the timestamp of
    an accepted record is not the zero time either: a message without any
    received time is stamped with the clock. *)
Theorem accepted_time_not_zero
    (Unmarshal : list byte -> option DirectUp)
    (ToUpper : string -> string) (DB : Type)
    (debug : bool) (now : Time) (b : list byte) (w : World DB) (p : Parsed) :
  IsZero now = false ->
  (parseUplink Unmarshal ToUpper DB debug now b w).2 = inl p ->
  IsZero (When p) = false.
Proof.
  intros Hnow Hp. rewrite parseUplink_result in Hp.
  destruct (Unmarshal b) as [du|]; [|discriminate].
  destruct (nonempty (DevEUI du)); [|discriminate].
  injection Hp as <-. cbn [When]. unfold resolved_time, UTC, IsZero in *.
  cbn [instant].
  destruct (instant (MsgReceivedAt (UplinkMessage du)) =? 0)%Z eqn:E1;
    cbn [negb]; [|exact E1].
  destruct (instant (ReceivedAt du) =? 0)%Z eqn:E2; cbn [negb instant];
    [exact Hnow|exact E2].
Qed.

Lemma accepted_time_not_zero_witness :
  IsZero (When sample_record) = false.
Proof.
  exact (accepted_time_not_zero sample_unmarshal ToUpperASCII Store false sample_now
           ["003"%byte] (fresh empty_store) sample_record eq_refl eq_refl).
Defined.

(** X14. Given that [strings.ToUpper] makes no non-empty string empty
    (it maps the letters of a string one by one and drops none), the
    station EUI of an accepted record is not empty, the test on it at
    line 204 cannot fail, and an accepted uplink upserts its station
    exactly when its application id is not empty, and then first of all,
    with what [strings.ToUpper] made of [dev_eui]. *)
Theorem station_upsert_iff_application_id
    (Unmarshal : list byte -> option DirectUp)
    (ToUpper : string -> string) (DB : Type)
    (Exec : DB -> statement -> DB * option string)
    (debug : bool) (now : Time) (msg : Message) (d : DB)
    (du : DirectUp) (p : Parsed) :
  (forall s, nonempty s = true -> nonempty (ToUpper s) = true) ->
  Unmarshal (MsgPayload msg) = Some du ->
  (parseUplink Unmarshal ToUpper DB debug now (MsgPayload msg) (fresh d)).2
  = inl p ->
  nonempty (StationEUI p) = true
  /\ (nonempty (ApplicationID du) = true ->
      hd_error (map fst (calls (handleMessage Unmarshal ToUpper DB Exec debug
                                  now msg (fresh d))))
      = Some (upsertStationSQL (ToUpper (DevEUI du)) (ApplicationID du)
                (nullIfEmpty (DeviceID du))))
  /\ (nonempty (ApplicationID du) = false ->
      forall eui app devid,
        ~ In (upsertStationSQL eui app devid)
             (map fst (calls (handleMessage Unmarshal ToUpper DB Exec debug
                                now msg (fresh d))))).
Proof.
  intros Hupper Hdu Hp.
  destruct (handle_accepted Unmarshal ToUpper DB Exec debug now msg (fresh d) p Hp)
    as (w0 & -> & _ & Hc & _).
  destruct (ingest_effect DB Exec debug p w0) as (-> & _).
  rewrite Hc. cbn [fresh calls map app].
  rewrite parseUplink_result, Hdu in Hp.
  destruct (nonempty (DevEUI du)) eqn:Heui; [|discriminate].
  injection Hp as <-. unfold statements_of, station_statement.
  cbn [AppID StationEUI StationDevID]. rewrite (Hupper _ Heui).
  split; [reflexivity|]. split; intros Happ; rewrite Happ; cbn [andb app].
  - reflexivity.
  - intros eui app devid Hin. apply in_app_or in Hin as [Hin|Hin].
    + unfold gateway_statement in Hin.
      destruct (RxMeta _) as [|rm rms]; [destruct Hin|].
      destruct (nonempty (GatewayID rm)); [|destruct Hin].
      destruct Hin as [Hin|[]]. discriminate Hin.
    + unfold insert_statements in Hin.
      apply in_map_iff in Hin as (sm & Hsm & _). discriminate Hsm.
Qed.

Lemma station_upsert_iff_application_id_witness :
  hd_error (map fst (calls (handleMessage sample_unmarshal ToUpperASCII unit
                              closed_pool false sample_now
                              (sample_message ["003"%byte]) (fresh tt))))
  = Some (upsertStationSQL "70B3D57ED0069153" "openclimate" (Some "station-1"%string)).
Proof.
  exact (proj1 (proj2 (station_upsert_iff_application_id sample_unmarshal
                         ToUpperASCII unit closed_pool false sample_now
                         (sample_message ["003"%byte]) tt sample_uplink
                         sample_record
                         (fun s H => eq_trans (nonempty_ToUpper s) H)
                         eq_refl eq_refl)) eq_refl).
Defined.

(** X15. Every measurement row an accepted uplink sends carries the
    timestamp and the station EUI of the record and a sensor type from 1
    to 15; its device id and its gateway id are NULL or non-empty, never
    the empty string. *)
Theorem measurement_rows_well_formed
    (Unmarshal : list byte -> option DirectUp)
    (ToUpper : string -> string) (DB : Type)
    (Exec : DB -> statement -> DB * option string)
    (debug : bool) (now : Time) (msg : Message) (d : DB)
    (p : Parsed) (row : Measurement) :
  (parseUplink Unmarshal ToUpper DB debug now (MsgPayload msg) (fresh d)).2 = inl p ->
  In row (measurement_rows
            (calls (handleMessage Unmarshal ToUpper DB Exec debug now msg (fresh d)))) ->
  m_time row = When p
  /\ m_station_eui row = StationEUI p
  /\ (1 <= m_sensor_type row <= 15)%Z
  /\ m_station_devid row <> Some EmptyString
  /\ m_gateway_id row <> Some EmptyString.
Proof.
  intros Hp Hin.
  destruct (handle_accepted Unmarshal ToUpper DB Exec debug now msg (fresh d) p Hp)
    as (w0 & Hh & _ & Hc & _).
  rewrite Hh in Hin.
  destruct (ingest_run DB Exec debug p w0) as (count & _ & Hrows & _).
  rewrite Hrows, Hc in Hin. cbn [fresh calls measurement_rows flat_map app] in Hin.
  apply in_map_iff in Hin as ([s m] & <- & Hsm).
  apply filter_In in Hsm as [_ Hvalid].
  unfold valid_type in Hvalid. cbn [snd] in Hvalid.
  apply andb_true_iff in Hvalid as [H1 H15].
  apply Z.leb_le in H1, H15.
  unfold row_sm, row_of. cbn [fst snd].
  destruct (gateway_of p) as [[gw lat] lon].
  cbn [m_time m_station_eui m_sensor_type m_station_devid m_gateway_id].
  repeat split; try lia; apply nullIfEmpty_not_empty.
Qed.

Lemma measurement_rows_well_formed_witness :
  m_time (row_sm sample_record (sample_slave, sample_sensor))
  = When sample_record
  /\ m_gateway_id (row_sm sample_record (sample_slave, sample_sensor))
     <> Some EmptyString.
Proof.
  destruct (measurement_rows_well_formed sample_unmarshal ToUpperASCII unit closed_pool
              false sample_now (sample_message ["003"%byte]) tt sample_record
              (row_sm sample_record (sample_slave, sample_sensor)) eq_refl
              ltac:(left; reflexivity))
    as (Ht & _ & _ & _ & Hg).
  split; assumption.
Defined.

(** ** The handler on the store *)

Abbreviation store_run := (run store_exec).

Lemma store_eq (a b : Store) :
  stations a = stations b -> gateways a = gateways b ->
  measurements a = measurements b -> a = b.
Proof. destruct a, b. simpl. congruence. Qed.

Lemma same_key_sym a b : same_key a b = same_key b a.
Proof.
  unfold same_key.
  now rewrite (Z.eqb_sym (timestamptz (m_time a))),
    (String.eqb_sym (m_station_eui a)), (Z.eqb_sym (m_slave_id a)),
    (Z.eqb_sym (m_sensor_type a)), (Z.eqb_sym (m_sensor_index a)).
Qed.

Lemma unique_keys_snoc table row :
  unique_keys table = true -> has_key row table = false ->
  unique_keys (table ++ [row]) = true.
Proof.
  induction table as [|r table IH]; intros Hu Hk; [reflexivity|].
  cbn [unique_keys app] in *. apply andb_true_iff in Hu as [Hr Hu].
  unfold has_key in Hk. cbn [existsb] in Hk.
  apply orb_false_iff in Hk as [Hrow Hk].
  rewrite IH by assumption. rewrite has_key_app. unfold has_key at 2.
  cbn [existsb]. rewrite same_key_sym, Hrow.
  apply negb_true_iff in Hr. now rewrite Hr.
Qed.

(** One statement on the store. *)
Lemma store_exec_step d q :
  (exists added,
      measurements (store_exec d q).1 = measurements d ++ added)
  /\ (unique_keys (measurements d) = true ->
      unique_keys (measurements (store_exec d q).1) = true).
Proof.
  destruct q as [row|eui app devid|gw eui]; cbn [store_exec].
  - destruct (row_fits row); cbn [negb].
    + destruct (existsb (same_key row) (measurements d)) eqn:Hk;
        cbn [fst measurements].
      * split; [exists []; now rewrite app_nil_r|auto].
      * split; [now exists [row]|]. intros Hu. now apply unique_keys_snoc.
    + split; [exists []; now rewrite app_nil_r|auto].
  - split; [exists []; now rewrite app_nil_r|auto].
  - split; [exists []; now rewrite app_nil_r|auto].
Qed.

Lemma store_run_step qs : forall d,
  (exists added, measurements (store_run qs d) = measurements d ++ added)
  /\ (unique_keys (measurements d) = true ->
      unique_keys (measurements (store_run qs d)) = true).
Proof.
  induction qs as [|q qs IH]; intros d.
  - split; [exists []; now rewrite app_nil_r|auto].
  - cbn [run fold_left]. fold (store_run qs (store_exec d q).1).
    destruct (IH (store_exec d q).1) as [[added Ha] Hu].
    destruct (store_exec_step d q) as [[added0 Ha0] Hu0].
    split; [|auto].
    exists (added0 ++ added). now rewrite Ha, Ha0, app_assoc.
Qed.

Lemma store_run_inserts p l : forall d,
  stations (store_run (insert_statements p l) d) = stations d
  /\ gateways (store_run (insert_statements p l) d) = gateways d.
Proof.
  unfold insert_statements.
  induction (List.filter valid_type l) as [|sm l' IH]; intros d; [auto|].
  cbn [map run fold_left].
  fold (store_run (map (fun sm => insertMeasurementSQL (row_sm p sm)) l')
          (store_exec d (insertMeasurementSQL (row_sm p sm))).1).
  destruct (IH (store_exec d (insertMeasurementSQL (row_sm p sm))).1)
    as [-> ->].
  cbn [store_exec]. destruct (negb _); [auto|].
  destruct (existsb _ _); auto.
Qed.

(** The dimension tables after the statements of a record. *)
Lemma store_run_dimensions p d :
  stations (store_run (statements_of p) d) = stations d
  /\ gateways (store_run (statements_of p) d)
     = match RxMeta (Msg p) with
       | rm :: _ =>
         if nonempty (GatewayID rm)
         then <[ GatewayID rm := EUI rm ]> (gateways d)
         else gateways d
       | [] => gateways d
       end.
Proof.
  unfold statements_of. rewrite !run_app.
  destruct (store_run_inserts p (readings p)
              (store_run (gateway_statement p)
                 (store_run (station_statement p) d))) as [-> ->].
  unfold station_statement, gateway_statement.
  destruct (nonempty (AppID p) && nonempty (StationEUI p));
    destruct (RxMeta (Msg p)) as [|rm rms]; try (split; reflexivity);
    destruct (nonempty (GatewayID rm)); split; reflexivity.
Qed.

Lemma store_run_ingest debug p d :
  db (ingest Store store_exec debug p (fresh d)) = store_run (statements_of p) d.
Proof.
  now destruct (ingest_effect Store store_exec debug p (fresh d)) as (_ & -> & _).
Qed.

(** Running the statements of a record a second time changes nothing. *)
Lemma store_run_twice p d :
  store_run (statements_of p) (store_run (statements_of p) d)
  = store_run (statements_of p) d.
Proof.
  apply store_eq.
  - destruct (store_run_dimensions p (store_run (statements_of p) d)) as [-> _].
    now destruct (store_run_dimensions p d) as [-> _].
  - destruct (store_run_dimensions p (store_run (statements_of p) d)) as [_ ->].
    destruct (store_run_dimensions p d) as [_ ->].
    destruct (RxMeta (Msg p)) as [|rm rms]; [reflexivity|].
    destruct (nonempty (GatewayID rm)); [|reflexivity].
    apply insert_insert_eq.
  - pose proof (store_run_ingest false p d) as H1.
    destruct (store_ingest false p (fresh d)) as (_ & _ & Hadd & _).
    destruct (ingest_effect Store store_exec false p
                (ingest Store store_exec false p (fresh d))) as (_ & Hdb & _).
    rewrite H1 in Hdb. rewrite <- Hdb, <- H1.
    destruct (store_ingest false p (ingest Store store_exec false p (fresh d)))
      as (_ & _ & _ & Hagain).
    apply Hagain. exact Hadd.
Qed.

(** What handling a message does to the store. *)
Lemma handle_store (Unmarshal : list byte -> option DirectUp)
    (ToUpper : string -> string)
    (debug : bool) (now : Time) (msg : Message) (w : World Store) :
  match (parseUplink Unmarshal ToUpper Store debug now (MsgPayload msg) w).2 with
  | inl p =>
    db (handleMessage Unmarshal ToUpper Store store_exec debug now msg w)
    = store_run (statements_of p) (db w)
  | inr _ =>
    db (handleMessage Unmarshal ToUpper Store store_exec debug now msg w) = db w
  end.
Proof.
  destruct (parseUplink _ _ _ _ _ _ w).2 as [p|e] eqn:Hp.
  - destruct (handle_accepted Unmarshal ToUpper Store store_exec debug now msg w p Hp)
      as (w0 & -> & Hd & _).
    destruct (ingest_effect Store store_exec debug p w0) as (_ & -> & _).
    now rewrite Hd.
  - now destruct (handle_rejected Unmarshal ToUpper Store store_exec debug now msg w e Hp)
      as (_ & _ & H & _).
Qed.

(** X16. Redelivery is harmless: when a message resolves to the same
    record at both deliveries (it carries a received time, or the clock
    reads the same), handling it a second time leaves the whole store,
    stations, gateways and measurements, as the first handling left it. *)
Theorem redelivery_leaves_store
    (Unmarshal : list byte -> option DirectUp)
    (ToUpper : string -> string)
    (debug : bool) (now1 now2 : Time) (msg : Message) (w : World Store) :
  (parseUplink Unmarshal ToUpper Store debug now1 (MsgPayload msg) w).2
  = (parseUplink Unmarshal ToUpper Store debug now2 (MsgPayload msg) w).2 ->
  db (handleMessage Unmarshal ToUpper Store store_exec debug now2 msg
        (handleMessage Unmarshal ToUpper Store store_exec debug now1 msg w))
  = db (handleMessage Unmarshal ToUpper Store store_exec debug now1 msg w).
Proof.
  intros Hsame.
  pose proof (handle_store Unmarshal ToUpper debug now1 msg w) as H1.
  pose proof (handle_store Unmarshal ToUpper debug now2 msg
                (handleMessage Unmarshal ToUpper Store store_exec debug now1 msg w)) as H2.
  rewrite (parseUplink_any Unmarshal ToUpper Store debug debug now2 _ _ w),
    <- Hsame in H2.
  destruct (parseUplink _ _ _ _ now1 _ w).2 as [p|e].
  - rewrite H2, H1. apply store_run_twice.
  - exact H2.
Qed.

Lemma redelivery_leaves_store_witness :
  let once := handleMessage sample_unmarshal ToUpperASCII Store store_exec false sample_now
                (sample_message ["003"%byte]) (fresh empty_store) in
  db (handleMessage sample_unmarshal ToUpperASCII Store store_exec false
        {| instant := 123456; zone := 0 |} (sample_message ["003"%byte]) once)
  = db once
  /\ length (measurements (db once)) = 2%nat.
Proof.
  split; [|reflexivity].
  apply (redelivery_leaves_store sample_unmarshal ToUpperASCII false sample_now
           {| instant := 123456; zone := 0 |}). reflexivity.
Defined.

(** X17. The measurements table is append-only under the handler:
    whatever the message, the rows there before are there after, in their
    places, with new rows behind them at most. *)
Theorem measurements_append_only
    (Unmarshal : list byte -> option DirectUp)
    (ToUpper : string -> string)
    (debug : bool) (now : Time) (msg : Message) (w : World Store) :
  exists added,
    measurements (db (handleMessage Unmarshal ToUpper Store store_exec debug now msg w))
    = measurements (db w) ++ added.
Proof.
  pose proof (handle_store Unmarshal ToUpper debug now msg w) as H.
  destruct (parseUplink _ _ _ _ _ _ w).2 as [p|e]; rewrite H.
  - apply store_run_step.
  - exists []. now rewrite app_nil_r.
Qed.

(** X18. The handler keeps the uniqueness constraint: if no two rows of
    the measurements table share a key before a message is handled, none
    do after. *)
Theorem measurements_keys_stay_unique
    (Unmarshal : list byte -> option DirectUp)
    (ToUpper : string -> string)
    (debug : bool) (now : Time) (msg : Message) (w : World Store) :
  unique_keys (measurements (db w)) = true ->
  unique_keys
    (measurements (db (handleMessage Unmarshal ToUpper Store store_exec debug now msg w)))
  = true.
Proof.
  intros Hu. pose proof (handle_store Unmarshal ToUpper debug now msg w) as H.
  destruct (parseUplink _ _ _ _ _ _ w).2 as [p|e]; rewrite H.
  - now apply store_run_step.
  - exact Hu.
Qed.

Lemma measurements_keys_stay_unique_witness :
  unique_keys
    (measurements
       (db (handleMessage sample_unmarshal ToUpperASCII Store store_exec false sample_now
              (sample_message ["003"%byte])
              (handleMessage sample_unmarshal ToUpperASCII Store store_exec false sample_now
                 (sample_message ["003"%byte]) (fresh empty_store)))))
  = true.
Proof.
  apply measurements_keys_stay_unique.
  apply measurements_keys_stay_unique. reflexivity.
Defined.










(** X20. The gateway upsert likewise: after an accepted uplink whose
    first radio-metadata entry names a gateway, the gateway table holds
    under that id the EUI of that entry, and every other gateway is as it
    was. *)
Theorem gateway_last_write_wins
    (Unmarshal : list byte -> option DirectUp)
    (ToUpper : string -> string)
    (debug : bool) (now : Time) (msg : Message) (w : World Store)
    (p : Parsed) (rm : RxMetadata) (rms : list RxMetadata) :
  (parseUplink Unmarshal ToUpper Store debug now (MsgPayload msg) w).2 = inl p ->
  RxMeta (Msg p) = rm :: rms ->
  nonempty (GatewayID rm) = true ->
  gateways (db (handleMessage Unmarshal ToUpper Store store_exec debug now msg w))
    !! GatewayID rm
  = Some (EUI rm)
  /\ (forall k, k <> GatewayID rm ->
        gateways (db (handleMessage Unmarshal ToUpper Store store_exec debug now msg w))
          !! k
        = gateways (db w) !! k).
Proof.
  intros Hp Hrm Hgw. pose proof (handle_store Unmarshal ToUpper debug now msg w) as H.
  rewrite Hp in H. rewrite H.
  destruct (store_run_dimensions p (db w)) as [_ ->]. rewrite Hrm, Hgw.
  split.
  - apply lookup_insert_eq.
  - intros k Hk. apply lookup_insert_ne. congruence.
Qed.

Lemma gateway_last_write_wins_witness :
  gateways (db (handleMessage sample_unmarshal ToUpperASCII Store store_exec false sample_now
                  (sample_message ["003"%byte]) (fresh empty_store)))
    !! "gw-1"%string
  = Some "AA"%string.
Proof.
  exact (proj1 (gateway_last_write_wins sample_unmarshal ToUpperASCII false sample_now
                  (sample_message ["003"%byte]) (fresh empty_store)
                  sample_record _ _ eq_refl eq_refl eq_refl)).
Defined.

End IngestorMore.

(* ===================================================================== *)
(** * Properties of the start-up                                          *)
(* ===================================================================== *)

Module StartupFacts.
Import Startup.

Lemma envOr_nonempty Getenv k d :
  Ingestor.nonempty d = true -> Ingestor.nonempty (envOr Getenv k d) = true.
Proof.
  intros Hd. unfold envOr.
  destruct (Ingestor.nonempty (Getenv k)) eqn:E; assumption.
Qed.

Lemma mustEnv_going Getenv k :
  Ingestor.nonempty (Getenv k) = true -> mustEnv Getenv k = Going (Getenv k).
Proof. intros H. unfold mustEnv. now rewrite H. Qed.

Lemma mustEnv_fatal Getenv k :
  Ingestor.nonempty (Getenv k) = false ->
  mustEnv Getenv k = Fatal (String.append "missing env " k).
Proof. intros H. unfold mustEnv. now rewrite H. Qed.

(** X21. [main] cannot start without five variables: it ends on
    "missing env" with the first, in the order PG_DSN, TTN_APP_ID,
    TTN_API_KEY, TTN_REGION_HOST, MQTT_TOPIC, that is unset or empty, the
    application id and the API key also when authentication is switched
    off; with all five set it ends on the error of the pool, if any, and
    goes on otherwise, with the connection string and the topic of the
    environment. *)
Theorem main_required_variables
    (Getenv : string -> string) (PoolNew : string -> option string)
    (unixNano : Z) :
  match find (fun k => negb (Ingestor.nonempty (Getenv k))) required with
  | Some k =>
    main Getenv PoolNew unixNano = Fatal (String.append "missing env " k)
  | None =>
    match PoolNew (Getenv "PG_DSN") with
    | Some err =>
      main Getenv PoolNew unixNano = Fatal (String.append "pgx pool: " err)
    | None =>
      exists st, main Getenv PoolNew unixNano = Going st
                 /\ pgdsn st = Getenv "PG_DSN"
                 /\ topic st = Getenv "MQTT_TOPIC"
    end
  end.
Proof.
  unfold required, main. cbn [find].
  destruct (Ingestor.nonempty (Getenv "PG_DSN")) eqn:E1; cbn [negb];
    [rewrite (mustEnv_going _ _ E1)|now rewrite (mustEnv_fatal _ _ E1)].
  destruct (Ingestor.nonempty (Getenv "TTN_APP_ID")) eqn:E2; cbn [negb and_then];
    [rewrite (mustEnv_going _ _ E2)|now rewrite (mustEnv_fatal _ _ E2)].
  destruct (Ingestor.nonempty (Getenv "TTN_API_KEY")) eqn:E3; cbn [negb and_then];
    [rewrite (mustEnv_going _ _ E3)|now rewrite (mustEnv_fatal _ _ E3)].
  destruct (Ingestor.nonempty (Getenv "TTN_REGION_HOST")) eqn:E4;
    cbn [negb and_then];
    [rewrite (mustEnv_going _ _ E4)|now rewrite (mustEnv_fatal _ _ E4)].
  destruct (Ingestor.nonempty (Getenv "MQTT_TOPIC")) eqn:E5; cbn [negb and_then];
    [rewrite (mustEnv_going _ _ E5)|now rewrite (mustEnv_fatal _ _ E5)].
  cbn [and_then]. destruct (PoolNew (Getenv "PG_DSN")); [reflexivity|].
  eexists. split; [reflexivity|]. split; reflexivity.
Qed.

(** X22. When [main] goes on, the first option set is the broker address
    protocol://host:port, whose three parts are never empty (an unset or
    empty port or protocol falls back on 1883 and mqtt); a TLS
    configuration is set exactly when the protocol begins with mqtts; and
    a user name or a password is set exactly when MQTT_USE_AUTH, true when
    unset, is the string true, and they are then the application id and
    the API key. *)
Theorem main_options
    (Getenv : string -> string) (PoolNew : string -> option string)
    (unixNano : Z) (st : settings) :
  main Getenv PoolNew unixNano = Going st ->
  let protocol := envOr Getenv "TTN_MQTT_PROTOCOL" "mqtt" in
  let host := Getenv "TTN_REGION_HOST" in
  let port := envOr Getenv "TTN_MQTT_PORT" "1883" in
  let auth := envOr Getenv "MQTT_USE_AUTH" "true" in
  hd_error (opts st)
  = Some (AddBroker (String.append protocol
                       (String.append "://"
                          (String.append host (String.append ":" port)))))
  /\ Ingestor.nonempty protocol = true
  /\ Ingestor.nonempty host = true
  /\ Ingestor.nonempty port = true
  /\ ((exists v, In (SetTLSConfig v) (opts st))
      <-> String.prefix "mqtts" protocol = true)
  /\ (forall u, In (SetUsername u) (opts st)
                <-> auth = "true"%string /\ u = Getenv "TTN_APP_ID")
  /\ (forall pw, In (SetPassword pw) (opts st)
                 <-> auth = "true"%string /\ pw = Getenv "TTN_API_KEY").
Proof.
  unfold main, mustEnv.
  destruct (Ingestor.nonempty (Getenv "PG_DSN")); [|discriminate].
  destruct (Ingestor.nonempty (Getenv "TTN_APP_ID")); [|discriminate].
  destruct (Ingestor.nonempty (Getenv "TTN_API_KEY")); [|discriminate].
  destruct (Ingestor.nonempty (Getenv "TTN_REGION_HOST")) eqn:Ehost;
    [|discriminate].
  destruct (Ingestor.nonempty (Getenv "MQTT_TOPIC")); [|discriminate].
  cbn [and_then]. destruct (PoolNew (Getenv "PG_DSN")); [discriminate|].
  intros [= <-]. cbv zeta. cbn [opts].
  pose proof (envOr_nonempty Getenv "TTN_MQTT_PROTOCOL" "mqtt" eq_refl) as Hproto.
  pose proof (envOr_nonempty Getenv "TTN_MQTT_PORT" "1883" eq_refl) as Hport.
  set (protocol := envOr Getenv "TTN_MQTT_PROTOCOL" "mqtt") in *.
  set (port := envOr Getenv "TTN_MQTT_PORT" "1883") in *.
  set (auth := envOr Getenv "MQTT_USE_AUTH" "true") in *.
  destruct (String.prefix "mqtts" protocol);
    destruct (String.eqb_spec auth "true") as [Hauth|Hauth];
    cbn [app hd_error];
    (split; [reflexivity|]); (split; [exact Hproto|]);
    (split; [reflexivity|]); (split; [exact Hport|]);
    (split; [|split]).
  all: try (split; [reflexivity|intros _; exists VersionTLS12; simpl; tauto]).
  all: try (split; [intros [v Hin]; simpl in Hin; intuition discriminate
                   |discriminate]).
  all: intros x; simpl; split;
    [intros Hin; intuition (try discriminate; try congruence)
    |intros [Ha ->]; intuition (try congruence)].
Qed.

Lemma main_options_witness :
  exists st,
    main (lookup_env sample_env) (fun _ => None) 1700000000123456789 = Going st
    /\ hd_error (opts st)
       = Some (AddBroker "mqtt://au1.cloud.thethings.network:1883")
    /\ In (SetUsername "openclimate") (opts st).
Proof.
  eexists. split; [reflexivity|].
  destruct (main_options (lookup_env sample_env) (fun _ => None)
              1700000000123456789 _ eq_refl)
    as (Hhd & _ & _ & _ & _ & Hu & _).
  split; [exact Hhd|]. apply Hu. split; reflexivity.
Defined.

(** X23. The suffix of the client id is the sub-second part of the
    clock: two starts a whole number of seconds apart (from 1970 on) get
    the same suffix. *)
Theorem randSuffix_same_each_second (n k : Z) :
  (0 <= n)%Z -> (0 <= k)%Z ->
  randSuffix (n + k * 1000000000) = randSuffix n.
Proof.
  intros Hn Hk. unfold randSuffix. do 2 f_equal.
  rewrite !Z.rem_mod_nonneg by lia. apply Z_mod_plus_full.
Qed.

Lemma randSuffix_same_each_second_witness :
  randSuffix (123456789 + 1700000000 * 1000000000) = "123456789"%string.
Proof.
  rewrite (randSuffix_same_each_second 123456789 1700000000) by lia.
  reflexivity.
Defined.

End StartupFacts.
